(** * neo4go: dirty tracking and commit generation for Neo4j collections

    A shallow embedding of [neo.go].  Go pointers ([*node],
    [*anytype.MapObject]) are addresses into two heaps, so that the aliasing
    between a collection's row list, its dirty lists and the nodes themselves
    is kept.  Panics are an explicit outcome that carries the state reached
    when the panic was raised: Go does not undo the writes made before it.
    The database driver is a parameter of every operation that talks to the
    store; the queries handed to it are recorded in the state. *)

From Stdlib Require Import ZArith String Ascii List Bool Lia.
From stdpp Require Import base list strings.
Import ListNotations.

Local Open Scope Z_scope.

(** ** Values *)

Abbreviation addr := nat.

(** A Go [any] as stored in the containers of this package: scalars, a
    pointer to a plain [*anytype.MapObject], or a pointer to a [*node]. *)
Inductive any : Type :=
| VNil
| VBool (b : bool)
| VInt (z : Z)
| VStr (s : string)
| VObj (p : addr)
| VNode (p : addr).

(** Go's [==] on interface values: same dynamic type and same value;
    pointers compare by address. *)
Definition any_eqb (a b : any) : bool :=
  match a, b with
  | VNil, VNil => true
  | VBool x, VBool y => Bool.eqb x y
  | VInt x, VInt y => Z.eqb x y
  | VStr x, VStr y => String.eqb x y
  | VObj p, VObj q => Nat.eqb p q
  | VNode p, VNode q => Nat.eqb p q
  | _, _ => false
  end.

(** Contents of a [MapObject]: keys with their values, in iteration order. *)
Definition fields := list (string * any).

Definition dquote : string := String (ascii_of_nat 34) EmptyString.
Definition newline : string := String (ascii_of_nat 10) EmptyString.
Definition tab : string := String (ascii_of_nat 9) EmptyString.

(** ** The container library

    Modelled from the spec: [github.com/DanielSvub/anytype], the generic
    container library the package builds on, is a dependency and its source
    is not in the package.  The spec has it as an external collaborator that
    offers ordered mappings and index-addressable sequences; lists are
    compared elementwise with [==], [IndexOf] answers [-1] for a missing
    element, and an index outside the list makes [Get], [Insert] and
    [Delete] panic. *)
Module anytype.

Module SliceList.

Definition Add (l : list any) (v : any) : list any := l ++ [v].

Definition Count (l : list any) : Z := Z.of_nat (length l).

Definition Empty (l : list any) : bool :=
  match l with [] => true | _ => false end.

Definition Contains (l : list any) (v : any) : bool := existsb (any_eqb v) l.

Fixpoint IndexOf (l : list any) (v : any) : Z :=
  match l with
  | [] => -1
  | x :: t =>
      if any_eqb x v then 0
      else let i := IndexOf t v in if i <? 0 then -1 else i + 1
  end.

Definition in_range (l : list any) (i : Z) : bool :=
  (0 <=? i) && (i <? Count l).

Definition Get (l : list any) (i : Z) : option any :=
  if in_range l i then l !! Z.to_nat i else None.

Definition Insert (l : list any) (i : Z) (v : any) : option (list any) :=
  if (0 <=? i) && (i <=? Count l)
  then Some (take (Z.to_nat i) l ++ v :: drop (Z.to_nat i) l)
  else None.

Definition Delete1 (l : list any) (i : Z) : option (list any) :=
  if in_range l i then Some (delete (Z.to_nat i) l) else None.

(** Modelled from the spec: the body of the library's variadic [Delete] is
    not in the package; the spec has each index resolved against the
    sequence as it is at the time of that deletion, one after the other. *)
Fixpoint Delete (l : list any) (indexes : list Z) : option (list any) :=
  match indexes with
  | [] => Some l
  | i :: rest =>
      match Delete1 l i with
      | Some l' => Delete l' rest
      | None => None
      end
  end.

Definition Concat (l another : list any) : list any := l ++ another.

Definition Clear (l : list any) : list any := [].

(** The string elements of a list, in order ([StringSlice], and the
    elements visited by [ForEachString] and [ReduceStrings]). *)
Fixpoint StringSlice (l : list any) : list string :=
  match l with
  | [] => []
  | VStr s :: t => s :: StringSlice t
  | _ :: t => StringSlice t
  end.

Definition ReduceStrings (l : list any) (initial : string)
    (f : string -> string -> string) : string :=
  fold_left f (StringSlice l) initial.

End SliceList.

Module MapObject.

Definition Count (o : fields) : Z := Z.of_nat (length o).

Fixpoint Get (o : fields) (key : string) : option any :=
  match o with
  | [] => None
  | (k, v) :: t => if String.eqb k key then Some v else Get t key
  end.

Definition KeyExists (o : fields) (key : string) : bool :=
  match Get o key with Some _ => true | None => false end.

Fixpoint set1 (o : fields) (key : string) (v : any) : fields :=
  match o with
  | [] => [(key, v)]
  | (k, x) :: t =>
      if String.eqb k key then (k, v) :: t else (k, x) :: set1 t key v
  end.

Inductive set_error := OddLength | KeyNotString.

(** The pairs are written one after the other; a failure keeps what was
    written before it. *)
Fixpoint set_pairs (o : fields) (values : list any)
    : fields * option set_error :=
  match values with
  | [] => (o, None)
  | VStr key :: v :: rest => set_pairs (set1 o key v) rest
  | _ :: _ :: _ => (o, Some KeyNotString)
  | [_] => (o, Some OddLength)
  end.

(** Modelled from the spec: the library's [Set] is not in the package; the
    spec has an odd-length key/value input rejected at the call site, with
    no write done. *)
Definition Set_ (o : fields) (values : list any)
    : fields * option set_error :=
  if Nat.even (length values) then set_pairs o values
  else (o, Some OddLength).

Definition Unset (o : fields) (keys : list string) : fields :=
  filter (fun kv => negb (existsb (String.eqb (fst kv)) keys)) o.

(** The sub-object with the given keys; a key the object does not have
    contributes nothing. *)
Definition Pluck (o : fields) (keys : list string) : fields :=
  fold_left
    (fun acc k => match Get o k with Some v => set1 acc k v | None => acc end)
    keys [].

End MapObject.

End anytype.

(** [strings.TrimSpace] removes the leading and the trailing white space
    of [unicode.IsSpace]; a Go string is a sequence of bytes that holds
    the text in UTF-8. *)

(** The white space of one byte: tab, new line, vertical tab, form feed,
    carriage return and space. *)
Definition is_space (c : ascii) : bool :=
  let n := nat_of_ascii c in
  (Nat.eqb n 32 || (Nat.leb 9 n && Nat.leb n 13))%bool.

(** The first byte of a white space of two or three bytes. *)
Definition is_lead (c : ascii) : bool :=
  let n := nat_of_ascii c in
  (Nat.eqb n 194 || Nat.eqb n 225 || Nat.eqb n 226 || Nat.eqb n 227)%bool.

(** U+0085 and U+00A0. *)
Definition two_byte_space (c1 c2 : ascii) : bool :=
  let b1 := nat_of_ascii c1 in
  let b2 := nat_of_ascii c2 in
  (Nat.eqb b1 194 && (Nat.eqb b2 133 || Nat.eqb b2 160))%bool.

(** U+1680, U+2000 to U+200A, U+2028, U+2029, U+202F, U+205F and U+3000. *)
Definition three_byte_space (c1 c2 c3 : ascii) : bool :=
  let b1 := nat_of_ascii c1 in
  let b2 := nat_of_ascii c2 in
  let b3 := nat_of_ascii c3 in
  ((Nat.eqb b1 225 && Nat.eqb b2 154 && Nat.eqb b3 128)
   || (Nat.eqb b1 226 && Nat.eqb b2 128
       && ((Nat.leb 128 b3 && Nat.leb b3 138)
           || Nat.eqb b3 168 || Nat.eqb b3 169 || Nat.eqb b3 175))
   || (Nat.eqb b1 226 && Nat.eqb b2 129 && Nat.eqb b3 159)
   || (Nat.eqb b1 227 && Nat.eqb b2 128 && Nat.eqb b3 128))%bool.

Fixpoint trim_left (s : string) : string :=
  match s with
  | EmptyString => EmptyString
  | String c1 t1 =>
      if is_space c1 then trim_left t1
      else if negb (is_lead c1) then s
      else
        match t1 with
        | String c2 t2 =>
            if two_byte_space c1 c2 then trim_left t2
            else
              match t2 with
              | String c3 t3 =>
                  if three_byte_space c1 c2 c3 then trim_left t3 else s
              | EmptyString => s
              end
        | EmptyString => s
        end
  end.

(** The string is white space only. *)
Fixpoint all_space (s : string) : bool :=
  match s with
  | EmptyString => true
  | String c1 t1 =>
      if is_space c1 then all_space t1
      else if negb (is_lead c1) then false
      else
        match t1 with
        | String c2 t2 =>
            if two_byte_space c1 c2 then all_space t2
            else
              match t2 with
              | String c3 t3 =>
                  if three_byte_space c1 c2 c3 then all_space t3 else false
              | EmptyString => false
              end
        | EmptyString => false
        end
  end.

(** The trailing white space is the longest end of the string that is
    white space only. *)
Fixpoint trim_right (s : string) : string :=
  match s with
  | EmptyString => EmptyString
  | String c t =>
      if all_space s then EmptyString else String c (trim_right t)
  end.

Definition TrimSpace (s : string) : string := trim_right (trim_left s).

(** ** The driver *)

(** A value of a driver record: a graph node ([dbtype.Node]) or anything
    else. *)
Inductive dbvalue : Type :=
| DbNode (Id : Z) (ElementId : string) (Labels : list string) (Props : fields)
| DbValue (v : any).

(** A record: its [Keys], each with the value [Values] holds for it. *)
Definition record := list (string * dbvalue).

(** What [session.Run] gives: an error, or a result that yields [records]
    and then ends, with the error [result.Err()] reports (if any). *)
Inductive run : Type :=
| RunError (err : string)
| RunResult (records : list record) (Err : option string).

(** One call of [session.Run]: the query text and the parameter dictionary
    ([None] is the nil map). *)
Definition call := (string * option fields)%type.

(** The session answers a call knowing the calls made before it. *)
Definition session := list call -> string -> option fields -> run.

(** ** Query results *)

(** A value of a result item: the object [Query] builds for a graph node,
    or the driver's value as it is. *)
Inductive ivalue : Type :=
| INode (identity : Z) (elementId : string) (labels : list string)
    (properties : fields)
| IValue (v : any).

Definition item := list (string * ivalue).

Fixpoint record_Get (r : record) (key : string) : option dbvalue :=
  match r with
  | [] => None
  | (k, v) :: t => if String.eqb k key then Some v else record_Get t key
  end.

Fixpoint item_Set (it : item) (key : string) (v : ivalue) : item :=
  match it with
  | [] => [(key, v)]
  | (k, x) :: t =>
      if String.eqb k key then (k, v) :: t else (k, x) :: item_Set t key v
  end.

Fixpoint item_Get (it : item) (key : string) : option ivalue :=
  match it with
  | [] => None
  | (k, v) :: t => if String.eqb k key then Some v else item_Get t key
  end.

(** The body of the loop over [record.Keys] in [Query]. *)
Definition convert_value (value : dbvalue) : ivalue :=
  match value with
  | DbNode i e l p => INode i e l p
  | DbValue v => IValue v
  end.

Definition convert_record (r : record) : item :=
  fold_left
    (fun it key =>
       match record_Get r key with
       | Some value => item_Set it key (convert_value value)
       | None => it
       end)
    (map fst r) [].

(** ** State *)

Module Node.
(** [node]; the [col] back pointer is the one collection of the state. *)
Record t := mk {
  MapObject : addr;
  id : string;
  added : list any;
  modified : list any;
  deleted : list any
}.
End Node.

Module Collection.
(** [collection]; [conn] is the session the operations are given. *)
Record t := mk {
  SliceList : list any;
  label : string;
  added : list any;
  modified : list any;
  deleted : list any
}.
End Collection.

Record world := mkWorld {
  objects : list fields;
  nodes : list Node.t;
  col : Collection.t;
  sent : list call
}.

Inductive panic : Type :=
| PanicMsg (msg : string)
| PanicErr (err : string)
| PanicRuntime (what : string).

Inductive outcome (A : Type) : Type :=
| Returned (a : A) (w : world)
| Panicked (p : panic) (w : world).
Arguments Returned {A} a w.
Arguments Panicked {A} p w.

Definition final {A} (o : outcome A) : world :=
  match o with Returned _ w => w | Panicked _ w => w end.

Definition M (A : Type) : Type := world -> outcome A.

Definition ret {A} (a : A) : M A := fun w => Returned a w.

Definition bind {A B} (m : M A) (k : A -> M B) : M B :=
  fun w => match m w with
           | Returned a w' => k a w'
           | Panicked p w' => Panicked p w'
           end.

Definition raise {A} (p : panic) : M A := fun w => Panicked p w.

Definition get : M world := fun w => Returned w w.

Definition put (w : world) : M unit := fun _ => Returned tt w.

Notation "'do' x <- m ; k" := (bind m (fun x => k))
  (at level 10, x name, m at level 100, k at level 200).
Notation "m >> k" := (bind m (fun _ => k))
  (at level 80, right associativity).

Fixpoint for_each {A} (f : A -> M unit) (l : list A) : M unit :=
  match l with
  | [] => ret tt
  | x :: t => f x >> for_each f t
  end.

Definition load_node (p : addr) : M Node.t :=
  do w <- get;
  match nodes w !! p with
  | Some n => ret n
  | None => raise (PanicRuntime "nil node")
  end.

Definition store_node (p : addr) (n : Node.t) : M unit :=
  do w <- get;
  put (mkWorld (objects w) (<[p := n]> (nodes w)) (col w) (sent w)).

Definition load_object (p : addr) : M fields :=
  do w <- get;
  match objects w !! p with
  | Some o => ret o
  | None => raise (PanicRuntime "nil object")
  end.

Definition store_object (p : addr) (o : fields) : M unit :=
  do w <- get;
  put (mkWorld (<[p := o]> (objects w)) (nodes w) (col w) (sent w)).

Definition load_col : M Collection.t := do w <- get; ret (col w).

Definition store_col (c : Collection.t) : M unit :=
  do w <- get; put (mkWorld (objects w) (nodes w) c (sent w)).

Definition from_option {A} (o : option A) (p : panic) : M A :=
  match o with Some a => ret a | None => raise p end.

Definition out_of_range : panic := PanicRuntime "index out of range".
Definition bad_conversion : panic := PanicRuntime "interface conversion".

(** [anytype.NewObject]: a fresh object with the given contents. *)
Definition NewObject (o : fields) : M addr :=
  do w <- get;
  put (mkWorld (objects w ++ [o]) (nodes w) (col w) (sent w)) >>
  ret (length (objects w)).

(** ** The package *)

Section Package.

(** The session of the connection ([ego.conn], [ego.col.conn]). *)
Variable conn : session.

(** [connection.Query].  The list is [None] for a nil [anytype.List]. *)
Definition Query (query : string) (params : option fields)
    : M (option (list item) * option string) :=
  fun w =>
    let paramDict := params in
    let query := TrimSpace query in
    let w' := mkWorld (objects w) (nodes w) (col w)
                (sent w ++ [(query, paramDict)]) in
    match conn (sent w) query paramDict with
    | RunError err => Returned (Some [], Some err) w'
    | RunResult records Err =>
        let output := map convert_record records in
        match Err with
        | Some err => Returned (Some output, Some err) w'
        | None => Returned (Some output, None) w'
        end
    end.

(** [collection.newNode]: a fresh [*node] around the object [obj]. *)
Definition newNode (id : string) (obj : addr) : M addr :=
  do w <- get;
  put (mkWorld (objects w) (nodes w ++ [Node.mk obj id [] [] []]) (col w)
         (sent w)) >>
  ret (length (nodes w)).

(** [node.template], over the fields of the node's object. *)
Definition template (o : fields) : string :=
  let step (acc : string * Z) (kv : string * any) :=
    let result := fst acc +:+ fst kv +:+ ":$" +:+ fst kv in
    let i := snd acc + 1 in
    (if i <? anytype.MapObject.Count o then result +:+ "," else result, i) in
  fst (fold_left step o ("{", 0)) +:+ "}".

(** The loop of [node.Set] over the keys of the pairs. *)
Fixpoint Set_keys (ego : addr) (values : list any) : M unit :=
  match values with
  | VStr key :: _ :: rest =>
      do n <- load_node ego;
      (if negb (anytype.SliceList.Contains (Node.added n) (VStr key)) then
         do o <- load_object (Node.MapObject n);
         if anytype.MapObject.KeyExists o key then
           store_node ego
             (Node.mk (Node.MapObject n) (Node.id n) (Node.added n)
                (anytype.SliceList.Add (Node.modified n) (VStr key))
                (Node.deleted n))
         else
           store_node ego
             (Node.mk (Node.MapObject n) (Node.id n)
                (anytype.SliceList.Add (Node.added n) (VStr key))
                (Node.modified n) (Node.deleted n))
       else ret tt) >>
      Set_keys ego rest
  | _ :: _ :: _ => raise (PanicMsg "Keys have to be strings.")
  | _ => ret tt
  end.

(** [if !ego.col.modified.Contains(ego) { ego.col.modified.Add(ego) }] *)
Definition register_modified (ego : addr) : M unit :=
  do c <- load_col;
  if negb (anytype.SliceList.Contains (Collection.modified c) (VNode ego)) then
    store_col
      (Collection.mk (Collection.SliceList c) (Collection.label c)
         (Collection.added c)
         (anytype.SliceList.Add (Collection.modified c) (VNode ego))
         (Collection.deleted c))
  else ret tt.

(** [ego.MapObject.Set(values...)].  The two messages stand for the ones of
    the library, which is not in the package. *)
Definition MapObject_Set (ego : addr) (values : list any) : M unit :=
  do n <- load_node ego;
  do o <- load_object (Node.MapObject n);
  match anytype.MapObject.Set_ o values with
  | (o', None) => store_object (Node.MapObject n) o'
  | (o', Some anytype.MapObject.OddLength) =>
      store_object (Node.MapObject n) o' >>
      raise (PanicMsg "Object fields have to be set as key-value pairs.")
  | (o', Some anytype.MapObject.KeyNotString) =>
      store_object (Node.MapObject n) o' >>
      raise (PanicMsg "Object key has to be a string.")
  end.

(** [node.Set] *)
Definition node_Set (ego : addr) (values : list any) : M unit :=
  (if Z.of_nat (length values) mod 2 =? 0 then Set_keys ego values
   else ret tt) >>
  register_modified ego >>
  MapObject_Set ego values.

(** The body of the loop of [node.Unset]. *)
Definition Unset_key (ego : addr) (key : string) : M unit :=
  do n <- load_node ego;
  if anytype.SliceList.Contains (Node.added n) (VStr key) then
    do l <- from_option
              (anytype.SliceList.Delete (Node.added n)
                 [anytype.SliceList.IndexOf (Node.added n) (VStr key)])
              out_of_range;
    store_node ego
      (Node.mk (Node.MapObject n) (Node.id n) l (Node.modified n)
         (Node.deleted n))
  else if anytype.SliceList.Contains (Node.modified n) (VStr key) then
    do l <- from_option
              (anytype.SliceList.Delete (Node.modified n)
                 [anytype.SliceList.IndexOf (Node.added n) (VStr key)])
              out_of_range;
    store_node ego
      (Node.mk (Node.MapObject n) (Node.id n) (Node.added n) l
         (Node.deleted n))
  else
    store_node ego
      (Node.mk (Node.MapObject n) (Node.id n) (Node.added n)
         (Node.modified n)
         (anytype.SliceList.Add (Node.deleted n) (VStr key))).

(** [node.Unset] *)
Definition node_Unset (ego : addr) (keys : list string) : M unit :=
  for_each (Unset_key ego) keys >>
  register_modified ego >>
  do n <- load_node ego;
  do o <- load_object (Node.MapObject n);
  store_object (Node.MapObject n) (anytype.MapObject.Unset o keys).

(** [node.Clear] *)
Definition node_Clear (ego : addr) : M unit :=
  raise (PanicMsg "Cannot clear a Neo4j node.").

(** The callback [node.Commit] gives to [ReduceStrings]. *)
Definition set_clause (res key : string) : string :=
  let comma := if String.eqb res EmptyString then EmptyString else "," in
  res +:+ comma +:+ " n." +:+ key +:+ " = $" +:+ key.

(** The text of the update query of [node.Commit]. *)
Definition update_cypher (label id : string) (todo : list any) : string :=
  "MATCH (n:" +:+ label +:+ ") WHERE elementId(n) = " +:+ dquote +:+ id
  +:+ dquote +:+ " SET"
  +:+ anytype.SliceList.ReduceStrings todo EmptyString set_clause.

(** The text of the query of [node.Commit] for one unset key. *)
Definition unset_cypher (label id key : string) : string :=
  newline +:+ tab +:+ tab +:+ tab +:+ tab +:+ tab
  +:+ "MATCH (n:" +:+ label +:+ ")"
  +:+ newline +:+ tab +:+ tab +:+ tab +:+ tab +:+ tab
  +:+ "WHERE elementId(n) = " +:+ dquote +:+ id +:+ dquote
  +:+ newline +:+ tab +:+ tab +:+ tab +:+ tab +:+ tab
  +:+ "SET n." +:+ key +:+ " = null"
  +:+ newline +:+ tab +:+ tab +:+ tab +:+ tab.

(** [_, err := Query(...); if err != nil { panic(err) }] *)
Definition Query_or_panic (query : string) (params : option fields)
    : M (option (list item)) :=
  do r <- Query query params;
  match snd r with
  | Some err => raise (PanicErr err)
  | None => ret (fst r)
  end.

(** [// Commiting set keys] *)
Definition Commit_set_keys (ego : addr) : M unit :=
  do n <- load_node ego;
  if negb (anytype.SliceList.Empty (Node.added n))
     || negb (anytype.SliceList.Empty (Node.modified n)) then
    let todo := anytype.SliceList.Concat (Node.added n) (Node.modified n) in
    do c <- load_col;
    do o <- load_object (Node.MapObject n);
    Query_or_panic
      (update_cypher (Collection.label c) (Node.id n) todo)
      (Some (anytype.MapObject.Pluck o (anytype.SliceList.StringSlice todo)))
    >>
    do n <- load_node ego;
    store_node ego
      (Node.mk (Node.MapObject n) (Node.id n)
         (anytype.SliceList.Clear (Node.added n)) (Node.modified n)
         (Node.deleted n))
  else ret tt.

(** The callback of the loop over the unset keys. *)
Definition unset_key (ego : addr) (key : string) : M unit :=
  do n <- load_node ego;
  do c <- load_col;
  Query_or_panic (unset_cypher (Collection.label c) (Node.id n) key) None >>
  ret tt.

(** [// Commiting unset keys] *)
Definition Commit_unset_keys (ego : addr) : M unit :=
  do n <- load_node ego;
  if negb (anytype.SliceList.Empty (Node.deleted n)) then
    for_each (unset_key ego)
      (anytype.SliceList.StringSlice (Node.deleted n)) >>
    do n <- load_node ego;
    store_node ego
      (Node.mk (Node.MapObject n) (Node.id n) (Node.added n)
         (Node.modified n) (anytype.SliceList.Clear (Node.deleted n)))
  else ret tt.

(** [node.Commit] *)
Definition node_Commit (ego : addr) : M unit :=
  Commit_set_keys ego >> Commit_unset_keys ego.

(** [value.(anytype.Object)] succeeds on objects and on nodes. *)
Definition is_Object (value : any) : bool :=
  match value with VObj _ | VNode _ => true | _ => false end.

Definition set_added (l : list any) : M unit :=
  do c <- load_col;
  store_col
    (Collection.mk (Collection.SliceList c) (Collection.label c) l
       (Collection.modified c) (Collection.deleted c)).

Definition set_modified (l : list any) : M unit :=
  do c <- load_col;
  store_col
    (Collection.mk (Collection.SliceList c) (Collection.label c)
       (Collection.added c) l (Collection.deleted c)).

Definition set_deleted (l : list any) : M unit :=
  do c <- load_col;
  store_col
    (Collection.mk (Collection.SliceList c) (Collection.label c)
       (Collection.added c) (Collection.modified c) l).

Definition set_SliceList (l : list any) : M unit :=
  do c <- load_col;
  store_col
    (Collection.mk l (Collection.label c) (Collection.added c)
       (Collection.modified c) (Collection.deleted c)).

(** The body of the loop of [collection.Add]. *)
Definition Add_value (value : any) : M unit :=
  if negb (is_Object value) then
    raise (PanicMsg "Only object can be added to the collection.")
  else
    match value with
    | VObj obj =>
        do node <- newNode EmptyString obj;
        do c <- load_col;
        set_added (anytype.SliceList.Add (Collection.added c) (VNode node)) >>
        do c <- load_col;
        set_SliceList
          (anytype.SliceList.Add (Collection.SliceList c) (VNode node))
    | _ => raise bad_conversion
    end.

(** [collection.Add] *)
Definition collection_Add (values : list any) : M unit :=
  for_each Add_value values.

(** [collection.Insert] *)
Definition collection_Insert (index : Z) (value : any) : M unit :=
  if negb (is_Object value) then
    raise (PanicMsg "Only object can be inserted to the collection.")
  else
    do c <- load_col;
    set_added (anytype.SliceList.Add (Collection.added c) value) >>
    do c <- load_col;
    do l <- from_option
              (anytype.SliceList.Insert (Collection.SliceList c) index value)
              out_of_range;
    set_SliceList l.

(** The body of the loop of [collection.Delete]; [index] is the loop
    variable of [for index := range indexes]. *)
Definition Delete_tracking (index : Z) : M unit :=
  do c <- load_col;
  do elem <- from_option (anytype.SliceList.Get (Collection.SliceList c) index)
               out_of_range;
  if anytype.SliceList.Contains (Collection.added c) elem then
    do l <- from_option
              (anytype.SliceList.Delete (Collection.added c)
                 [anytype.SliceList.IndexOf (Collection.added c) elem])
              out_of_range;
    set_added l
  else
    (if anytype.SliceList.Contains (Collection.modified c) elem then
       do l <- from_option
                 (anytype.SliceList.Delete (Collection.modified c)
                    [anytype.SliceList.IndexOf (Collection.modified c) elem])
                 out_of_range;
       set_modified l
     else ret tt) >>
    match elem with
    | VNode p =>
        do node <- load_node p;
        do c <- load_col;
        set_deleted
          (anytype.SliceList.Add (Collection.deleted c) (VStr (Node.id node)))
    | _ => ret tt
    end.

(** [collection.Delete].  A [range] with one variable yields the positions
    [0 .. len(indexes)-1]. *)
Definition collection_Delete (indexes : list Z) : M unit :=
  for_each Delete_tracking (map Z.of_nat (seq 0 (length indexes))) >>
  do c <- load_col;
  do l <- from_option
            (anytype.SliceList.Delete (Collection.SliceList c) indexes)
            out_of_range;
  set_SliceList l.

(** [collection.Replace] *)
Definition collection_Replace (index : Z) (value : any) : M unit :=
  collection_Delete [index] >> collection_Insert index value.

(** [collection.Pop] *)
Definition collection_Pop : M unit :=
  do c <- load_col;
  collection_Delete [anytype.SliceList.Count (Collection.SliceList c) - 1].

(** [collection.Clear] *)
Definition collection_Clear : M unit :=
  do c <- load_col;
  for_each (fun i => collection_Delete [i])
    (map Z.of_nat (rev (seq 0 (length (Collection.SliceList c))))) >>
  do c <- load_col;
  set_SliceList (anytype.SliceList.Clear (Collection.SliceList c)).

(** The text of the create query of [collection.Commit]. *)
Definition create_cypher (label : string) (o : fields) : string :=
  "CREATE (n:" +:+ label +:+ template o +:+ ") RETURN elementId(n)".

(** The text of the row delete query of [collection.Commit]. *)
Definition delete_cypher (label : string) : string :=
  newline +:+ tab +:+ tab +:+ tab +:+ tab +:+ tab
  +:+ "MATCH (n:" +:+ label +:+ ")"
  +:+ newline +:+ tab +:+ tab +:+ tab +:+ tab +:+ tab
  +:+ "WHERE elementId(n) = $id"
  +:+ newline +:+ tab +:+ tab +:+ tab +:+ tab +:+ tab
  +:+ "DELETE n"
  +:+ newline +:+ tab +:+ tab +:+ tab +:+ tab.

(** [result.GetObject(0).GetString("elementId(n)")] *)
Definition first_elementId (result : option (list item)) : option string :=
  match result with
  | Some (x :: _) =>
      match item_Get x "elementId(n)" with
      | Some (IValue (VStr id)) => Some id
      | _ => None
      end
  | _ => None
  end.

(** The callback of the first loop of [collection.Commit].  [ForEachObject]
    passes the objects of the list and skips the other elements; the
    conversion of [x] to a node pointer panics on a plain object. *)
Definition create_row (x : any) : M unit :=
  match x with
  | VNode p =>
      do n <- load_node p;
      do o <- load_object (Node.MapObject n);
      do c <- load_col;
      do result <- Query_or_panic (create_cypher (Collection.label c) o)
                     (Some o);
      do id <- from_option (first_elementId result) out_of_range;
      do n <- load_node p;
      store_node p
        (Node.mk (Node.MapObject n) id (Node.added n) (Node.modified n)
           (Node.deleted n))
  | VObj _ => raise bad_conversion
  | _ => ret tt
  end.

(** The callback of the second loop; [ForEachString] passes the strings. *)
Definition delete_row (id : string) : M unit :=
  do c <- load_col;
  Query_or_panic (delete_cypher (Collection.label c)) (Some [("id", VStr id)])
  >> ret tt.

(** The callback of the third loop. *)
Definition commit_row (x : any) : M unit :=
  match x with
  | VNode p => node_Commit p
  | VObj _ => raise bad_conversion
  | _ => ret tt
  end.

(** [// Commiting added elements] *)
Definition Commit_added : M unit :=
  do c <- load_col;
  if negb (anytype.SliceList.Empty (Collection.added c)) then
    for_each create_row (Collection.added c) >>
    do c <- load_col;
    set_added (anytype.SliceList.Clear (Collection.added c))
  else ret tt.

(** [// Commiting deleted elements] *)
Definition Commit_deleted : M unit :=
  do c <- load_col;
  if negb (anytype.SliceList.Empty (Collection.deleted c)) then
    for_each delete_row (anytype.SliceList.StringSlice (Collection.deleted c))
    >>
    do c <- load_col;
    set_deleted (anytype.SliceList.Clear (Collection.deleted c))
  else ret tt.

(** [// Commiting modified elements] *)
Definition Commit_modified : M unit :=
  do c <- load_col;
  if negb (anytype.SliceList.Empty (Collection.modified c)) then
    for_each commit_row (Collection.modified c) >>
    do c <- load_col;
    set_modified (anytype.SliceList.Clear (Collection.modified c))
  else ret tt.

(** [collection.Commit] *)
Definition collection_Commit : M unit :=
  Commit_added >> Commit_deleted >> Commit_modified.

(** The callback [NewCollection] gives to [MapObjects]. *)
Definition load_row (x : item) : M unit :=
  match item_Get x "n" with
  | Some (INode _ elementId _ properties) =>
      do w <- get;
      put (mkWorld (objects w ++ [properties]) (nodes w) (col w) (sent w)) >>
      do node <- newNode elementId (length (objects w));
      do c <- load_col;
      set_SliceList
        (anytype.SliceList.Add (Collection.SliceList c) (VNode node))
  | _ => raise bad_conversion
  end.

(** [connection.NewCollection]; the collection it builds becomes the
    collection of the state.  The answer is the error, if any. *)
Definition NewCollection (entity : string) : M (option string) :=
  do r <- Query ("MATCH (n:" +:+ entity +:+ ") RETURN n") None;
  match snd r with
  | Some err => ret (Some err)
  | None =>
      store_col (Collection.mk [] entity [] [] []) >>
      for_each load_row (default [] (fst r)) >>
      ret None
  end.

End Package.

Definition empty_world : world :=
  mkWorld [] [] (Collection.mk [] EmptyString [] [] []) [].

(** A store with two persons, which answers a create with the identifier
    ["4:abc:3"] and any other query with no rows. *)
Definition demo_session : session :=
  fun _ query _ =>
    if String.prefix "CREATE" query then
      RunResult [[("elementId(n)", DbValue (VStr "4:abc:3"))]] None
    else if String.prefix "MATCH (n:Person) RETURN n" query then
      RunResult
        [[("n", DbNode 1 "4:abc:1" ["Person"]
                  [("name", VStr "A"); ("age", VInt 30)])];
         [("n", DbNode 2 "4:abc:2" ["Person"] [("name", VStr "B")])]]
        None
    else RunResult [] None.

(** The same store, refusing every row delete. *)
Definition readonly_session : session :=
  fun calls query params =>
    if String.prefix "MATCH (n:Person)" query
       && negb (String.prefix "MATCH (n:Person) RETURN n" query)
       && negb (String.prefix "MATCH (n:Person) WHERE" query)
    then RunError "read only"
    else demo_session calls query params.

(** The collection of the persons, as [NewCollection] loads it. *)
Definition persons : world :=
  final (NewCollection demo_session "Person" empty_world).

(** A person changed, and an object the caller made for a new one. *)
Definition before_Add : world :=
  final ((node_Set 0%nat [VStr "age"; VInt 31] >>
          NewObject [("name", VStr "C")]) persons).

(** * Properties *)

(** ** Reading the state *)

Definition node_at (w : world) (p : addr) : option Node.t := nodes w !! p.

Definition fields_of (w : world) (p : addr) : option fields :=
  match nodes w !! p with
  | Some n => objects w !! Node.MapObject n
  | None => None
  end.

Definition returned {A} (o : outcome A) : bool :=
  match o with Returned _ _ => true | Panicked _ _ => false end.

(** The calls a run added to the ones of the state it started from. *)
Definition issued {A} (w : world) (o : outcome A) : list call :=
  drop (length (sent w)) (sent (final o)).

(** The panic a run ended with, if any. *)
Definition panic_of {A} (o : outcome A) : option panic :=
  match o with Returned _ _ => None | Panicked p _ => Some p end.

(** *** What the store answered *)

Definition answer_error (r : run) : option string :=
  match r with RunError e => Some e | RunResult _ Err => Err end.

(** The error (if any) of each of the calls [cs], made one after the other
    after the calls [before]. *)
Fixpoint answers (conn : session) (before cs : list call)
    : list (option string) :=
  match cs with
  | [] => []
  | c :: t =>
      answer_error (conn before (fst c) (snd c))
      :: answers conn (before ++ [c]) t
  end.

(** A run that made the calls [cs] stops at a store error: when it ended in
    [panic(err)], [err] is the answer to the last call and no earlier call
    failed; in any other case no call failed. *)
Definition aborts_on_error (conn : session) (before cs : list call)
    (p : option panic) : Prop :=
  match p with
  | Some (PanicErr e) =>
      exists pre, answers conn before cs = pre ++ [Some e]
                  /\ Forall (eq None) pre
  | _ => Forall (eq None) (answers conn before cs)
  end.

(** *** The kinds of calls *)

Definition create_call (label : string) (c : call) : Prop :=
  exists o, c = (TrimSpace (create_cypher label o), Some o).

Definition row_delete_call (label : string) (c : call) : Prop :=
  exists id, c = (TrimSpace (delete_cypher label), Some [("id", VStr id)]).

Definition field_call (label : string) (c : call) : Prop :=
  (exists id todo ps, c = (TrimSpace (update_cypher label id todo), Some ps))
  \/ (exists id key, c = (TrimSpace (unset_cypher label id key), None)).

(** *** Frames *)

Definition clear_added (c : Collection.t) : Collection.t :=
  Collection.mk (Collection.SliceList c) (Collection.label c) []
    (Collection.modified c) (Collection.deleted c).

Definition clear_deleted (c : Collection.t) : Collection.t :=
  Collection.mk (Collection.SliceList c) (Collection.label c)
    (Collection.added c) (Collection.modified c) [].

Definition clear_modified (c : Collection.t) : Collection.t :=
  Collection.mk (Collection.SliceList c) (Collection.label c)
    (Collection.added c) [] (Collection.deleted c).

(** A node that differs from [n] in its identity at most. *)
Definition same_but_id (n n' : Node.t) : Prop :=
  Node.MapObject n' = Node.MapObject n /\ Node.added n' = Node.added n
  /\ Node.modified n' = Node.modified n /\ Node.deleted n' = Node.deleted n.

(** A node with the object, the identity and the modified keys of [n]. *)
Definition same_identity (n n' : Node.t) : Prop :=
  Node.MapObject n' = Node.MapObject n /\ Node.id n' = Node.id n
  /\ Node.modified n' = Node.modified n.

(** What a run from [w] with outcome [o] did: it wrote no object, it left
    the collection as it was, its nodes are the nodes of [w] up to [N], and
    the calls it made are all [P] and stop at a store error. *)
Definition step {A} (conn : session) (P : call -> Prop)
    (N : Node.t -> Node.t -> Prop) (w : world) (o : outcome A) : Prop :=
  objects (final o) = objects w /\
  col (final o) = col w /\
  Forall2 N (nodes w) (nodes (final o)) /\
  exists cs, sent (final o) = sent w ++ cs /\ Forall P cs
             /\ aborts_on_error conn (sent w) cs (panic_of o).

(** What a phase did: [step], but with a collection that is cleared by
    [clear] when the phase returns and untouched when it panics. *)
Definition phase {A} (conn : session) (P : call -> Prop)
    (N : Node.t -> Node.t -> Prop) (clear : Collection.t -> Collection.t)
    (w : world) (o : outcome A) : Prop :=
  objects (final o) = objects w /\
  Forall2 N (nodes w) (nodes (final o)) /\
  (exists cs, sent (final o) = sent w ++ cs /\ Forall P cs
              /\ aborts_on_error conn (sent w) cs (panic_of o)) /\
  col (final o) = match o with
                  | Returned _ _ => clear (col w)
                  | Panicked _ _ => col w
                  end.

(** *** Well-formed states and stores *)

(** [v] is a pointer to a node of [w] whose object is in [w]. *)
Definition is_row (w : world) (v : any) : bool :=
  match v with
  | VNode p =>
      match nodes w !! p with
      | Some n =>
          match objects w !! Node.MapObject n with
          | Some _ => true
          | None => false
          end
      | None => false
      end
  | _ => false
  end.

(** The rows tracked as added or modified are nodes. *)
Definition tracked_rows (w : world) : bool :=
  forallb (is_row w) (Collection.added (col w))
  && forallb (is_row w) (Collection.modified (col w)).

(** The store answers every call without an error. *)
Definition succeeds (conn : session) : Prop :=
  forall calls query params,
    exists records, conn calls query params = RunResult records None.

(** The store answers a create with a single row that holds the identifier
    it assigned. *)
Definition assigns_identity (conn : session) : Prop :=
  forall calls label o,
    exists sid,
      conn calls (TrimSpace (create_cypher label o)) (Some o) =
        RunResult [[("elementId(n)", DbValue (VStr sid))]] None.

(** *** Calls of a node commit *)


(** The update call of the node [n] with the fields [o]: none when no key
    is pending. *)
Definition set_calls (label : string) (n : Node.t) (o : fields) : list call :=
  if negb (anytype.SliceList.Empty (Node.added n))
     || negb (anytype.SliceList.Empty (Node.modified n))
  then [(TrimSpace
           (update_cypher label (Node.id n) (Node.added n ++ Node.modified n)),
         Some (anytype.MapObject.Pluck o
                 (anytype.SliceList.StringSlice
                    (Node.added n ++ Node.modified n))))]
  else [].

(** The calls that null the unset keys of the node [n]. *)
Definition unset_calls (label : string) (n : Node.t) : list call :=
  map (fun key => (TrimSpace (unset_cypher label (Node.id n) key), None))
    (anytype.SliceList.StringSlice (Node.deleted n)).

(** The first person with a field changed, a field added and a key
    unset. *)
Definition changed_person : world :=
  final ((node_Set 0%nat [VStr "name"; VStr "Z"; VStr "city"; VStr "P"] >>
          node_Unset 0%nat ["nick"]) persons).

Definition changed_node : Node.t :=
  Node.mk 0%nat "4:abc:1" [VStr "city"] [VStr "name"] [VStr "nick"].

(** *** Loading *)

(** A node of the store: its [Id], [ElementId], [Labels] and [Props]. *)
Definition stored_node := (Z * string * list string * fields)%type.

Definition ElementId_of (r : stored_node) : string := snd (fst (fst r)).

Definition Props_of (r : stored_node) : fields := snd r.

(** The record of the load query for a node of the store. *)
Definition load_record (r : stored_node) : record :=
  [("n", DbNode (fst (fst (fst r))) (ElementId_of r) (snd (fst r))
           (Props_of r))].

(** The text of the load query of [NewCollection]. *)
Definition load_cypher (entity : string) : string :=
  "MATCH (n:" +:+ entity +:+ ") RETURN n".

(** A store that is down. *)
Definition down_session : session := fun _ _ _ => RunError "down".

(** The two persons of [demo_session]. *)
Definition two_persons : list stored_node :=
  [(1, "4:abc:1", ["Person"], [("name", VStr "A"); ("age", VInt 30)]);
   (2, "4:abc:2", ["Person"], [("name", VStr "B")])].

(** *** The dirty lists of a node *)

(** No key is twice in [added], no key is both in [added] and in
    [modified], and the keys in [modified] are fields of the object. *)
Definition keys_ok (n : Node.t) (o : fields) : Prop :=
  List.NoDup (Node.added n) /\
  (forall v, List.In v (Node.added n) -> ~ List.In v (Node.modified n)) /\
  (forall k, List.In (VStr k) (Node.modified n) ->
             anytype.MapObject.KeyExists o k = true).

(** The node at [ego] and its object are in the state, and [keys_ok]. *)
Definition node_ok (w : world) (ego : addr) : Prop :=
  exists n o, nodes w !! ego = Some n
              /\ objects w !! Node.MapObject n = Some o /\ keys_ok n o.

(** The arguments of [Set] for the pairs [pairs]. *)
Definition pairs_values (pairs : list (string * any)) : list any :=
  flat_map (fun kv => [VStr (fst kv); snd kv]) pairs.

(** The fields [o] with the pairs written one after the other. *)
Definition write_pairs (o : fields) (pairs : list (string * any)) : fields :=
  fold_left (fun o kv => anytype.MapObject.set1 o (fst kv) (snd kv)) pairs o.

(** The collection with the node [ego] registered as modified. *)
Definition registered (ego : addr) (c : Collection.t) : Collection.t :=
  Collection.mk (Collection.SliceList c) (Collection.label c)
    (Collection.added c)
    (if anytype.SliceList.Contains (Collection.modified c) (VNode ego)
     then Collection.modified c
     else Collection.modified c ++ [VNode ego])
    (Collection.deleted c).

Definition first_person : Node.t := Node.mk 0%nat "4:abc:1" [] [] [].

(** *** Rows *)

(** The state after [Add] has wrapped the objects [xs]. *)
Definition added_objects (xs : list addr) (w : world) : world :=
  mkWorld (objects w)
    (nodes w ++ map (fun x => Node.mk x EmptyString [] [] []) xs)
    (Collection.mk
       (Collection.SliceList (col w) ++
        map VNode (seq (length (nodes w)) (length xs)))
       (Collection.label (col w))
       (Collection.added (col w) ++
        map VNode (seq (length (nodes w)) (length xs)))
       (Collection.modified (col w)) (Collection.deleted (col w)))
    (sent w).

(** The state after the row at [i] has left the rows and [id] has been
    queued for deletion. *)
Definition row_deleted (i : nat) (id : string) (w : world) : world :=
  mkWorld (objects w) (nodes w)
    (Collection.mk (delete i (Collection.SliceList (col w)))
       (Collection.label (col w)) (Collection.added (col w))
       (Collection.modified (col w))
       (Collection.deleted (col w) ++ [VStr id]))
    (sent w).

(** The first row is the node [p], with the contents [n], and is tracked
    neither as added nor as modified. *)
Definition first_row_untracked (w : world) (p : addr) (n : Node.t) : Prop :=
  Collection.SliceList (col w) !! 0%nat = Some (VNode p) /\
  nodes w !! p = Some n /\
  anytype.SliceList.Contains (Collection.added (col w)) (VNode p) = false /\
  anytype.SliceList.Contains (Collection.modified (col w)) (VNode p) = false.

(** *** The calls of a commit *)

(** The creates of the rows [rows], one for each node of the list in the
    order of the list, with the fields of the node as they are in [objs].
    The list ends at the first element that is an object and not a node,
    and at a node pointer or an object pointer that is not in the state;
    an element that is not an object is passed over. *)
Fixpoint creates_of (label : string) (objs : list fields)
    (nds : list Node.t) (rows : list any) : list call :=
  match rows with
  | [] => []
  | VNode p :: t =>
      match nds !! p with
      | Some n =>
          match objs !! Node.MapObject n with
          | Some o =>
              (TrimSpace (create_cypher label o), Some o)
              :: creates_of label objs nds t
          | None => []
          end
      | None => []
      end
  | VObj _ :: _ => []
  | _ :: t => creates_of label objs nds t
  end.

(** The identifier in the first row of the answer of the store to the call
    [c], made after the calls [before]; none when the store answers with an
    error. *)
Definition answered_id (conn : session) (before : list call) (c : call)
    : option string :=
  match conn before (fst c) (snd c) with
  | RunResult records None =>
      first_elementId (Some (map convert_record records))
  | _ => None
  end.

(** The nodes after the creates of the rows [rows], sent after the calls
    [before]: each node of the list has the identifier the store answered
    to its create.  The creates end as in [creates_of], and at the first
    answer that holds no identifier. *)
Fixpoint created (conn : session) (label : string) (objs : list fields)
    (before : list call) (nds : list Node.t) (rows : list any)
    : list Node.t :=
  match rows with
  | [] => nds
  | VNode p :: t =>
      match nds !! p with
      | Some n =>
          match objs !! Node.MapObject n with
          | Some o =>
              let c := (TrimSpace (create_cypher label o), Some o) in
              match answered_id conn before c with
              | Some id =>
                  created conn label objs (before ++ [c])
                    (<[p := Node.mk (Node.MapObject n) id (Node.added n)
                              (Node.modified n) (Node.deleted n)]> nds)
                    t
              | None => nds
              end
          | None => nds
          end
      | None => nds
      end
  | VObj _ :: _ => nds
  | _ :: t => created conn label objs before nds t
  end.

(** The row deletes of the identifiers [ids], in their order. *)
Definition deletes_of (label : string) (ids : list string) : list call :=
  map (fun id => (TrimSpace (delete_cypher label), Some [("id", VStr id)]))
    ids.

(** The node [n] after its commit: [added] and [deleted] are empty. *)
Definition committed (n : Node.t) : Node.t :=
  Node.mk (Node.MapObject n) (Node.id n) [] (Node.modified n) [].

(** The calls of the commit of the node [n]: the update call, then the
    calls for the unset keys. *)
Definition node_calls (label : string) (objs : list fields) (n : Node.t)
    : list call :=
  match objs !! Node.MapObject n with
  | Some o => set_calls label n o
  | None => []
  end ++ unset_calls label n.

(** The calls of the commits of the nodes of [rows], in the order of the
    list; a node that is twice in the list is committed twice, the second
    time as the first commit left it.  The list ends and elements are
    passed over as in [creates_of]. *)
Fixpoint updates_of (label : string) (objs : list fields)
    (nds : list Node.t) (rows : list any) : list call :=
  match rows with
  | [] => []
  | VNode p :: t =>
      match nds !! p with
      | Some n =>
          node_calls label objs n
          ++ updates_of label objs (<[p := committed n]> nds) t
      | None => []
      end
  | VObj _ :: _ => []
  | _ :: t => updates_of label objs nds t
  end.






(** A collection in which an object was inserted before another one was
    added. *)
Definition inserted_then_added : world :=
  final ((do y <- NewObject [("name", VStr "C")];
          collection_Insert 0 (VObj y) >>
          do x <- NewObject [("name", VStr "D")];
          collection_Add [VObj x]) persons).

(** ** The monad *)

Lemma bind_Returned {A B} (m : M A) (k : A -> M B) w a w1 :
  m w = Returned a w1 -> bind m k w = k a w1.
Proof. unfold bind; intros ->; reflexivity. Qed.


Lemma for_each_app {A} (f : A -> M unit) (l1 l2 : list A) (w : world) :
  for_each f (l1 ++ l2) w = (for_each f l1 >> for_each f l2) w.
Proof.
  revert w; induction l1 as [| x l1 IH]; intros w; simpl.
  - reflexivity.
  - unfold bind. destruct (f x w) as [[] w1 | p w1].
    + rewrite IH. reflexivity.
    + reflexivity.
Qed.

Lemma load_node_Returned ego w n w1 :
  load_node ego w = Returned n w1 -> w1 = w /\ nodes w !! ego = Some n.
Proof.
  unfold load_node, bind, get, ret, raise.
  destruct (nodes w !! ego); inversion 1; subst; auto.
Qed.

Lemma load_object_Returned p w o w1 :
  load_object p w = Returned o w1 -> w1 = w /\ objects w !! p = Some o.
Proof.
  unfold load_object, bind, get, ret, raise.
  destruct (objects w !! p); inversion 1; subst; auto.
Qed.

Lemma load_col_Returned w c w1 :
  load_col w = Returned c w1 -> w1 = w /\ c = col w.
Proof. unfold load_col, bind, get, ret. inversion 1; subst; auto. Qed.

(** ** Answers *)

Lemma answers_app conn before cs1 cs2 :
  answers conn before (cs1 ++ cs2) =
  answers conn before cs1 ++ answers conn (before ++ cs1) cs2.
Proof.
  revert before; induction cs1 as [| c cs1 IH]; intros before; simpl.
  - rewrite app_nil_r. reflexivity.
  - rewrite IH, <- app_assoc. reflexivity.
Qed.

Lemma Forall2_trans_with {A} (R : A -> A -> Prop) (l1 l2 l3 : list A) :
  (forall a b c, R a b -> R b c -> R a c) ->
  Forall2 R l1 l2 -> Forall2 R l2 l3 -> Forall2 R l1 l3.
Proof.
  intros HR H12; revert l3; induction H12; intros l3 H23;
    inversion H23; subst; constructor; eauto.
Qed.

Lemma Forall2_refl_with {A} (R : A -> A -> Prop) (l : list A) :
  (forall a, R a a) -> Forall2 R l l.
Proof. intros HR; induction l; constructor; auto. Qed.

Lemma Forall2_update {A} (R : A -> A -> Prop) (l : list A) i x y :
  (forall a, R a a) -> l !! i = Some x -> R x y -> Forall2 R l (<[i:=y]> l).
Proof.
  intros HR; revert i; induction l as [| a l IH]; intros [| i] Hl Hxy;
    simpl in *; try discriminate.
  - inversion Hl; subst.
    constructor; [assumption | apply Forall2_refl_with, HR].
  - constructor; [apply HR | apply IH; assumption].
Qed.

(** ** Steps *)

Section Step.

Variable conn : session.
Variable P : call -> Prop.
Variable N : Node.t -> Node.t -> Prop.
Hypothesis N_refl : forall n, N n n.
Hypothesis N_trans : forall a b c, N a b -> N b c -> N a c.

(** A run that sends nothing and does not end in [panic(err)]. *)
Lemma step_quiet {A} (w : world) (o : outcome A) :
  objects (final o) = objects w -> col (final o) = col w ->
  Forall2 N (nodes w) (nodes (final o)) -> sent (final o) = sent w ->
  (forall e, panic_of o <> Some (PanicErr e)) ->
  step conn P N w o.
Proof.
  intros Ho Hc Hn Hs Hp. repeat split; try assumption.
  exists []. rewrite app_nil_r. repeat split; try assumption.
  - constructor.
  - unfold aborts_on_error.
    destruct (panic_of o) as [[| e |] |]; simpl; try constructor.
    exfalso; apply (Hp e); reflexivity.
Qed.

Lemma step_same {A} (w : world) (o : outcome A) :
  final o = w -> (forall e, panic_of o <> Some (PanicErr e)) ->
  step conn P N w o.
Proof.
  intros Hf Hp. apply step_quiet; rewrite ?Hf; try reflexivity; try assumption.
  apply Forall2_refl_with, N_refl.
Qed.

Lemma step_bind {A B} (m : M A) (k : A -> M B) (w : world) :
  step conn P N w (m w) ->
  (forall a w1, m w = Returned a w1 -> col w1 = col w ->
     step conn P N w1 (k a w1)) ->
  step conn P N w (bind m k w).
Proof.
  intros Hm Hk. unfold bind.
  destruct (m w) as [a w1 | p w1] eqn:E.
  - destruct Hm as (Ho & Hc & Hn & cs1 & Hs & HP & Ha); simpl in *.
    destruct (Hk a w1 eq_refl Hc) as (Ho2 & Hc2 & Hn2 & cs2 & Hs2 & HP2 & Ha2).
    repeat split.
    + congruence.
    + congruence.
    + eapply Forall2_trans_with; eauto.
    + exists (cs1 ++ cs2). repeat split.
      * rewrite Hs2, Hs, app_assoc. reflexivity.
      * apply Forall_app; auto.
      * rewrite Hs in Ha2. unfold aborts_on_error in *.
        rewrite answers_app.
        destruct (panic_of (k a w1)) as [[| e |] |];
          try (apply Forall_app; auto).
        destruct Ha2 as (pre & Hpre & Hnone).
        exists (answers conn (sent w) cs1 ++ pre). split.
        -- rewrite Hpre, app_assoc. reflexivity.
        -- apply Forall_app; auto.
  - exact Hm.
Qed.

Lemma step_for_each {A} (f : A -> M unit) (l : list A) :
  forall w,
    (forall x w1, In x l -> col w1 = col w -> step conn P N w1 (f x w1)) ->
    step conn P N w (for_each f l w).
Proof.
  induction l as [| x l IH]; intros w Hf; simpl.
  - apply step_same; [reflexivity | discriminate].
  - apply step_bind.
    + apply Hf; [left; reflexivity | reflexivity].
    + intros [] w1 _ Hc. apply IH. intros y w2 Hy Hc2.
      apply Hf; [right; exact Hy | congruence].
Qed.

Lemma step_load_node ego w : step conn P N w (load_node ego w).
Proof.
  apply step_same; unfold load_node, bind, get, ret, raise;
    destruct (nodes w !! ego); simpl; try reflexivity; discriminate.
Qed.

Lemma step_load_object p w : step conn P N w (load_object p w).
Proof.
  apply step_same; unfold load_object, bind, get, ret, raise;
    destruct (objects w !! p); simpl; try reflexivity; discriminate.
Qed.

Lemma step_load_col w : step conn P N w (load_col w).
Proof. apply step_same; [reflexivity | discriminate]. Qed.

Lemma step_ret {A} (a : A) w : step conn P N w (ret a w).
Proof. apply step_same; [reflexivity | discriminate]. Qed.

Lemma step_from_option {A} (x : option A) what w :
  step conn P N w (from_option x (PanicRuntime what) w).
Proof.
  apply step_same; destruct x; simpl; try reflexivity; discriminate.
Qed.

Lemma step_store_node ego n n' w :
  nodes w !! ego = Some n -> N n n' ->
  step conn P N w (store_node ego n' w).
Proof.
  intros Hn HN. apply step_quiet; simpl; try reflexivity.
  - eapply Forall2_update; eauto.
  - discriminate.
Qed.

Lemma step_Query_or_panic query params w :
  P (TrimSpace query, params) ->
  step conn P N w (Query_or_panic conn query params w).
Proof.
  intros HP. unfold Query_or_panic, Query, bind, raise, ret, step.
  destruct (conn (sent w) (TrimSpace query) params) as [e | rs [e |]] eqn:E;
    simpl; repeat split; try (apply Forall2_refl_with, N_refl);
    exists [(TrimSpace query, params)]; repeat split;
    try (constructor; [exact HP | constructor]);
    simpl; rewrite E; simpl.
  - exists []. split; [reflexivity | constructor].
  - exists []. split; [reflexivity | constructor].
  - repeat constructor.
Qed.

End Step.

(** ** The node relations *)

Lemma same_but_id_refl n : same_but_id n n.
Proof. repeat split. Qed.

Lemma same_but_id_trans a b c :
  same_but_id a b -> same_but_id b c -> same_but_id a c.
Proof. unfold same_but_id; intuition congruence. Qed.

Lemma same_identity_refl n : same_identity n n.
Proof. repeat split. Qed.

Lemma same_identity_trans a b c :
  same_identity a b -> same_identity b c -> same_identity a c.
Proof. unfold same_identity; intuition congruence. Qed.

Lemma eq_node_trans (a b c : Node.t) : a = b -> b = c -> a = c.
Proof. congruence. Qed.

Create HintDb step.

#[local] Hint Resolve same_but_id_refl same_but_id_trans same_identity_refl
  same_identity_trans eq_node_trans : step.

Ltac step_read :=
  first [ apply step_load_node | apply step_load_object | apply step_load_col
        | apply step_ret | apply step_from_option ];
  eauto with step.

(** Opens [do x <- m; k] where [m] only reads the state. *)
Ltac step_open x H :=
  apply step_bind; [ solve [eauto with step] | solve [step_read] | ];
  intros x ? H ?.

(** ** The loops of the commits *)

Lemma step_create_row conn x w :
  step conn (create_call (Collection.label (col w))) same_but_id w
    (create_row conn x w).
Proof.
  destruct x as [| b | z | s | p | p]; simpl;
    try (apply step_same; eauto with step; discriminate).
  step_open n Hn. apply load_node_Returned in Hn as [-> Hn].
  step_open o Ho. apply load_object_Returned in Ho as [-> Ho].
  step_open c Hc. apply load_col_Returned in Hc as [-> ->].
  apply step_bind; [ eauto with step | |].
  { apply step_Query_or_panic; eauto with step. exists o; reflexivity. }
  intros result w1 _ Hcol.
  apply step_bind; [ eauto with step | rewrite <- Hcol; step_read |].
  intros id w2 Hid _.
  assert (w2 = w1) as ->.
  { destruct (first_elementId result); simpl in Hid; inversion Hid; auto. }
  rewrite <- Hcol.
  step_open n' Hn'. apply load_node_Returned in Hn' as [-> Hn'].
  eapply step_store_node; eauto with step. repeat split.
Qed.

Lemma step_delete_row conn id w :
  step conn (row_delete_call (Collection.label (col w))) eq w
    (delete_row conn id w).
Proof.
  unfold delete_row.
  step_open c Hc. apply load_col_Returned in Hc as [-> ->].
  apply step_bind; [ eauto with step | |].
  { apply step_Query_or_panic; eauto with step. exists id; reflexivity. }
  intros result w1 _ Hcol. rewrite <- Hcol. step_read.
Qed.

Lemma step_Commit_set_keys conn ego w :
  step conn (field_call (Collection.label (col w))) same_identity w
    (Commit_set_keys conn ego w).
Proof.
  unfold Commit_set_keys.
  step_open n Hn. apply load_node_Returned in Hn as [-> Hn].
  destruct (negb _ || negb _); [| step_read].
  step_open c Hc. apply load_col_Returned in Hc as [-> ->].
  step_open o Ho. apply load_object_Returned in Ho as [-> Ho].
  apply step_bind; [ eauto with step | |].
  { apply step_Query_or_panic; eauto with step. left. eexists _, _, _.
    reflexivity. }
  intros result w1 _ Hcol. rewrite <- Hcol.
  step_open n' Hn'. apply load_node_Returned in Hn' as [-> Hn'].
  eapply step_store_node; eauto with step. repeat split.
Qed.

Lemma step_unset_key conn ego key w :
  step conn (field_call (Collection.label (col w))) same_identity w
    (unset_key conn ego key w).
Proof.
  unfold unset_key.
  step_open n Hn. apply load_node_Returned in Hn as [-> Hn].
  step_open c Hc. apply load_col_Returned in Hc as [-> ->].
  apply step_bind; [ eauto with step | |].
  { apply step_Query_or_panic; eauto with step. right. eexists _, _.
    reflexivity. }
  intros result w1 _ Hcol. rewrite <- Hcol. step_read.
Qed.

Lemma step_Commit_unset_keys conn ego w :
  step conn (field_call (Collection.label (col w))) same_identity w
    (Commit_unset_keys conn ego w).
Proof.
  unfold Commit_unset_keys.
  step_open n Hn. apply load_node_Returned in Hn as [-> Hn].
  destruct (negb _); [| step_read].
  apply step_bind; [ eauto with step | |].
  { apply step_for_each; eauto with step. intros key w1 _ Hcol.
    rewrite <- Hcol. apply step_unset_key. }
  intros [] w1 _ Hcol. rewrite <- Hcol.
  step_open n' Hn'. apply load_node_Returned in Hn' as [-> Hn'].
  eapply step_store_node; eauto with step. repeat split.
Qed.

Lemma step_node_Commit conn ego w :
  step conn (field_call (Collection.label (col w))) same_identity w
    (node_Commit conn ego w).
Proof.
  unfold node_Commit.
  apply step_bind; [ eauto with step | apply step_Commit_set_keys |].
  intros [] w1 _ Hcol. rewrite <- Hcol. apply step_Commit_unset_keys.
Qed.

Lemma step_commit_row conn x w :
  step conn (field_call (Collection.label (col w))) same_identity w
    (commit_row conn x w).
Proof.
  destruct x as [| b | z | s | p | p]; simpl;
    try (apply step_same; eauto with step; discriminate).
  apply step_node_Commit.
Qed.

(** ** The phases of [collection.Commit] *)

Lemma phase_skip conn P N clear w :
  (forall n, N n n) -> clear (col w) = col w ->
  phase conn P N clear w (Returned tt w).
Proof.
  intros HN Hc. repeat split; simpl; auto.
  - apply Forall2_refl_with, HN.
  - exists []. rewrite app_nil_r. repeat split; constructor.
Qed.

Lemma phase_loop conn P N clear (loop finish : M unit) w :
  step conn P N w (loop w) ->
  (forall w1, finish w1 =
     Returned tt
       (mkWorld (objects w1) (nodes w1) (clear (col w1)) (sent w1))) ->
  phase conn P N clear w ((loop >> finish) w).
Proof.
  intros (Ho & Hc & Hn & Hs) Hfin. unfold bind.
  destruct (loop w) as [[] w1 | p w1]; simpl in *.
  - rewrite Hfin; simpl. repeat split; auto. rewrite Hc. reflexivity.
  - repeat split; auto.
Qed.

Lemma phase_Commit_added conn w :
  phase conn (create_call (Collection.label (col w))) same_but_id clear_added
    w (Commit_added conn w).
Proof.
  change (Commit_added conn w) with
    ((if negb (anytype.SliceList.Empty (Collection.added (col w)))
      then (for_each (create_row conn) (Collection.added (col w)) >>
           (do c <- load_col;
            set_added (anytype.SliceList.Clear (Collection.added c))))
      else ret tt) w).
  destruct (anytype.SliceList.Empty (Collection.added (col w))) eqn:E;
    cbn [negb].
  - apply phase_skip; eauto with step.
    destruct (col w) as [rows lbl ad md dl]; simpl in *.
    destruct ad; [reflexivity | discriminate].
  - apply phase_loop; [| reflexivity].
    apply step_for_each; eauto with step.
    intros x w1 _ Hc. rewrite <- Hc. apply step_create_row.
Qed.

Lemma phase_Commit_deleted conn w :
  phase conn (row_delete_call (Collection.label (col w))) eq clear_deleted
    w (Commit_deleted conn w).
Proof.
  change (Commit_deleted conn w) with
    ((if negb (anytype.SliceList.Empty (Collection.deleted (col w)))
      then (for_each (delete_row conn)
              (anytype.SliceList.StringSlice (Collection.deleted (col w))) >>
           (do c <- load_col;
            set_deleted (anytype.SliceList.Clear (Collection.deleted c))))
      else ret tt) w).
  destruct (anytype.SliceList.Empty (Collection.deleted (col w))) eqn:E;
    cbn [negb].
  - apply phase_skip; eauto with step.
    destruct (col w) as [rows lbl ad md dl]; simpl in *.
    destruct dl; [reflexivity | discriminate].
  - apply phase_loop; [| reflexivity].
    apply step_for_each; eauto with step.
    intros x w1 _ Hc. rewrite <- Hc. apply step_delete_row.
Qed.

Lemma phase_Commit_modified conn w :
  phase conn (field_call (Collection.label (col w))) same_identity
    clear_modified w (Commit_modified conn w).
Proof.
  change (Commit_modified conn w) with
    ((if negb (anytype.SliceList.Empty (Collection.modified (col w)))
      then (for_each (commit_row conn) (Collection.modified (col w)) >>
           (do c <- load_col;
            set_modified (anytype.SliceList.Clear (Collection.modified c))))
      else ret tt) w).
  destruct (anytype.SliceList.Empty (Collection.modified (col w))) eqn:E;
    cbn [negb].
  - apply phase_skip; eauto with step.
    destruct (col w) as [rows lbl ad md dl]; simpl in *.
    destruct md; [reflexivity | discriminate].
  - apply phase_loop; [| reflexivity].
    apply step_for_each; eauto with step.
    intros x w1 _ Hc. rewrite <- Hc. apply step_commit_row.
Qed.

Lemma Forall2_eq_nodes (l k : list Node.t) : Forall2 eq l k -> l = k.
Proof. induction 1; congruence. Qed.



(** ** Runs that return *)

Lemma returned_final (o : outcome unit) :
  returned o = true -> o = Returned tt (final o).
Proof. destruct o as [[] w | p w]; simpl; [reflexivity | discriminate]. Qed.

Lemma returned_bind {A B} (m : M A) (k : A -> M B) (w : world) :
  returned (m w) = true ->
  (forall a w1, m w = Returned a w1 -> returned (k a w1) = true) ->
  returned (bind m k w) = true.
Proof.
  unfold bind. destruct (m w) as [a w1 | p w1]; simpl; intros H Hk.
  - apply Hk; reflexivity.
  - discriminate.
Qed.

Lemma is_row_preserved (N : Node.t -> Node.t -> Prop) (w w' : world) v :
  (forall n n', N n n' -> Node.MapObject n' = Node.MapObject n) ->
  objects w' = objects w -> Forall2 N (nodes w) (nodes w') ->
  is_row w v = true -> is_row w' v = true.
Proof.
  intros HN Ho Hn. destruct v as [| b | z | s | p | p]; unfold is_row; auto.
  destruct (nodes w !! p) as [n |] eqn:E; [| discriminate].
  destruct (Forall2_lookup_l _ _ _ _ _ Hn E) as (n' & E' & Hnn').
  rewrite E', (HN _ _ Hnn'), Ho. auto.
Qed.

Lemma rows_preserved (N : Node.t -> Node.t -> Prop) (w w' : world) l :
  (forall n n', N n n' -> Node.MapObject n' = Node.MapObject n) ->
  objects w' = objects w -> Forall2 N (nodes w) (nodes w') ->
  forallb (is_row w) l = true -> forallb (is_row w') l = true.
Proof.
  intros HN Ho Hn. induction l as [| v l IH]; simpl; auto.
  intros H. apply andb_prop in H as [Hv Hl].
  rewrite (is_row_preserved N w w' v HN Ho Hn Hv). auto.
Qed.

Lemma is_row_inv w v :
  is_row w v = true ->
  exists p n o, v = VNode p /\ nodes w !! p = Some n
                /\ objects w !! Node.MapObject n = Some o.
Proof.
  destruct v as [| b | z | s | p | p]; unfold is_row; try discriminate.
  destruct (nodes w !! p) as [n |] eqn:En; [| discriminate].
  destruct (objects w !! Node.MapObject n) as [o |] eqn:Eo; [| discriminate].
  intros _. exists p, n, o. auto.
Qed.

Lemma same_but_id_MapObject n n' :
  same_but_id n n' -> Node.MapObject n' = Node.MapObject n.
Proof. intros H; apply H. Qed.

Lemma same_identity_MapObject n n' :
  same_identity n n' -> Node.MapObject n' = Node.MapObject n.
Proof. intros H; apply H. Qed.

Lemma eq_MapObject (n n' : Node.t) :
  n = n' -> Node.MapObject n' = Node.MapObject n.
Proof. intros ->; reflexivity. Qed.

(** The create of a row the store answers with the identifier [sid]. *)
Lemma create_row_VNode conn p w n o sid :
  nodes w !! p = Some n -> objects w !! Node.MapObject n = Some o ->
  conn (sent w) (TrimSpace (create_cypher (Collection.label (col w)) o))
    (Some o) = RunResult [[("elementId(n)", DbValue (VStr sid))]] None ->
  create_row conn (VNode p) w =
    Returned tt
      (mkWorld (objects w)
         (<[p := Node.mk (Node.MapObject n) sid (Node.added n)
                   (Node.modified n) (Node.deleted n)]> (nodes w))
         (col w)
         (sent w ++
          [(TrimSpace (create_cypher (Collection.label (col w)) o), Some o)])).
Proof.
  intros Hn Ho Hc.
  unfold create_row, Query_or_panic, Query, load_node, load_object, load_col,
    store_node, from_option, bind, get, put, ret, raise; simpl.
  rewrite Hn, Ho, Hc. simpl. rewrite Hn. reflexivity.
Qed.

Lemma create_rows_return conn :
  assigns_identity conn ->
  forall l w, forallb (is_row w) l = true ->
    returned (for_each (create_row conn) l w) = true.
Proof.
  intros Hid. induction l as [| v l IH]; intros w H; simpl; auto.
  apply andb_prop in H as [Hv Hl].
  destruct (is_row_inv w v Hv) as (p & n & o & -> & Hn & Ho).
  destruct (Hid (sent w) (Collection.label (col w)) o) as (sid & Hc).
  pose proof (step_create_row conn (VNode p) w) as (Hobj & _ & Hnodes & _).
  pose proof (create_row_VNode conn p w n o sid Hn Ho Hc) as E.
  rewrite E in Hobj, Hnodes. simpl in Hobj, Hnodes.
  erewrite bind_Returned by exact E.
  apply IH. eapply rows_preserved; eauto using same_but_id_MapObject.
Qed.

Lemma Query_or_panic_succeeds conn query params w :
  succeeds conn ->
  exists result,
    Query_or_panic conn query params w =
      Returned result
        (mkWorld (objects w) (nodes w) (col w)
           (sent w ++ [(TrimSpace query, params)])).
Proof.
  intros Hs. unfold Query_or_panic, Query, bind, ret, raise.
  destruct (Hs (sent w) (TrimSpace query) params) as (records & ->).
  simpl. eexists; reflexivity.
Qed.

Lemma delete_rows_return conn :
  succeeds conn ->
  forall l w, returned (for_each (delete_row conn) l w) = true.
Proof.
  intros Hs. induction l as [| id l IH]; intros w; simpl; auto.
  apply returned_bind; [| intros; apply IH].
  unfold delete_row, load_col, bind at 1 2, get, ret; simpl.
  destruct (Query_or_panic_succeeds conn
              (delete_cypher (Collection.label (col w)))
              (Some [("id", VStr id)]) w Hs) as (result & E).
  erewrite bind_Returned by exact E. reflexivity.
Qed.

Lemma unset_keys_return conn ego n :
  succeeds conn ->
  forall keys w, nodes w !! ego = Some n ->
    exists w', for_each (unset_key conn ego) keys w = Returned tt w'
               /\ nodes w' = nodes w.
Proof.
  intros Hs. induction keys as [| key keys IH]; intros w Hn; simpl.
  - exists w. auto.
  - destruct (Query_or_panic_succeeds conn
                (unset_cypher (Collection.label (col w)) (Node.id n) key)
                None w Hs) as (result & E).
    assert (E1 : unset_key conn ego key w =
                 Returned tt
                   (mkWorld (objects w) (nodes w) (col w)
                      (sent w ++
                       [(TrimSpace (unset_cypher (Collection.label (col w))
                                      (Node.id n) key), None)]))).
    { unfold unset_key, load_node, load_col, bind, get, ret, raise.
      rewrite Hn, E. reflexivity. }
    erewrite bind_Returned by exact E1.
    apply (IH (mkWorld (objects w) (nodes w) (col w) _)). exact Hn.
Qed.

Ltac query_succeeds Hs :=
  match goal with
  | |- context [Query_or_panic ?conn ?q ?ps ?w] =>
      let r := fresh "result" in
      let E := fresh "E" in
      destruct (Query_or_panic_succeeds conn q ps w Hs) as (r & E);
      rewrite E
  end.

Lemma Commit_set_keys_returns conn ego w n o :
  succeeds conn ->
  nodes w !! ego = Some n -> objects w !! Node.MapObject n = Some o ->
  returned (Commit_set_keys conn ego w) = true.
Proof.
  intros Hs Hn Ho.
  unfold Commit_set_keys, load_node, load_col, load_object, store_node, bind,
    get, put, ret, raise.
  rewrite Hn. destruct (negb _ || negb _); [| reflexivity].
  rewrite Ho. cbv zeta. query_succeeds Hs. simpl. rewrite Hn. reflexivity.
Qed.

Lemma Commit_unset_keys_returns conn ego w n :
  succeeds conn -> nodes w !! ego = Some n ->
  returned (Commit_unset_keys conn ego w) = true.
Proof.
  intros Hs Hn. unfold Commit_unset_keys. apply returned_bind.
  - unfold load_node, bind, get, ret. rewrite Hn. reflexivity.
  - intros n0 w1 H. apply load_node_Returned in H as [-> H].
    rewrite Hn in H. inversion H; subst n0; clear H.
    destruct (negb _); [| reflexivity].
    destruct (unset_keys_return conn ego n Hs
                (anytype.SliceList.StringSlice (Node.deleted n)) w Hn)
      as (w' & E & Hn').
    erewrite bind_Returned by exact E.
    unfold load_node, store_node, bind, get, put, ret.
    rewrite Hn', Hn. reflexivity.
Qed.

Lemma node_Commit_returns conn ego w n o :
  succeeds conn ->
  nodes w !! ego = Some n -> objects w !! Node.MapObject n = Some o ->
  returned (node_Commit conn ego w) = true.
Proof.
  intros Hs Hn Ho. unfold node_Commit. apply returned_bind.
  - eapply Commit_set_keys_returns; eauto.
  - intros [] w1 E.
    pose proof (step_Commit_set_keys conn ego w) as (_ & _ & Hnodes & _).
    rewrite E in Hnodes. simpl in Hnodes.
    destruct (Forall2_lookup_l _ _ _ _ _ Hnodes Hn) as (n1 & Hn1 & _).
    eapply Commit_unset_keys_returns; eauto.
Qed.

Lemma commit_rows_return conn :
  succeeds conn ->
  forall l w, forallb (is_row w) l = true ->
    returned (for_each (commit_row conn) l w) = true.
Proof.
  intros Hs. induction l as [| v l IH]; intros w H; simpl; auto.
  apply andb_prop in H as [Hv Hl].
  destruct (is_row_inv w v Hv) as (p & n & o & -> & Hn & Ho).
  apply returned_bind.
  - simpl. eapply node_Commit_returns; eauto.
  - intros [] w1 E.
    pose proof (step_commit_row conn (VNode p) w) as (Hobj & _ & Hnodes & _).
    rewrite E in Hobj, Hnodes. simpl in Hobj, Hnodes.
    apply IH. eapply rows_preserved; eauto using same_identity_MapObject.
Qed.

Lemma Commit_deleted_returns conn w :
  succeeds conn -> returned (Commit_deleted conn w) = true.
Proof.
  intros Hs.
  change (Commit_deleted conn w) with
    ((if negb (anytype.SliceList.Empty (Collection.deleted (col w)))
      then (for_each (delete_row conn)
              (anytype.SliceList.StringSlice (Collection.deleted (col w))) >>
            (do c <- load_col;
             set_deleted (anytype.SliceList.Clear (Collection.deleted c))))
      else ret tt) w).
  destruct (negb _); [| reflexivity].
  apply returned_bind; [apply delete_rows_return, Hs | reflexivity].
Qed.

Lemma Commit_modified_returns conn w :
  succeeds conn ->
  forallb (is_row w) (Collection.modified (col w)) = true ->
  returned (Commit_modified conn w) = true.
Proof.
  intros Hs H.
  change (Commit_modified conn w) with
    ((if negb (anytype.SliceList.Empty (Collection.modified (col w)))
      then (for_each (commit_row conn) (Collection.modified (col w)) >>
            (do c <- load_col;
             set_modified (anytype.SliceList.Clear (Collection.modified c))))
      else ret tt) w).
  destruct (negb _); [| reflexivity].
  apply returned_bind; [apply commit_rows_return; assumption | reflexivity].
Qed.

(** The creates of a collection whose last added row is the node [p]. *)
Lemma Commit_added_last conn w l p wa wb :
  Collection.added (col w) = l ++ [VNode p] ->
  for_each (create_row conn) l w = Returned tt wa ->
  create_row conn (VNode p) wa = Returned tt wb ->
  Commit_added conn w =
    Returned tt (mkWorld (objects wb) (nodes wb) (clear_added (col wb))
                   (sent wb)).
Proof.
  intros Hl Ha Hb.
  change (Commit_added conn w) with
    ((if negb (anytype.SliceList.Empty (Collection.added (col w)))
      then (for_each (create_row conn) (Collection.added (col w)) >>
            (do c <- load_col;
             set_added (anytype.SliceList.Clear (Collection.added c))))
      else ret tt) w).
  rewrite Hl.
  assert (anytype.SliceList.Empty (l ++ [VNode p]) = false) as ->
    by (destruct l; reflexivity).
  cbn [negb].
  assert (E : for_each (create_row conn) (l ++ [VNode p]) w = Returned tt wb).
  { rewrite for_each_app. erewrite bind_Returned by exact Ha.
    simpl. erewrite bind_Returned by exact Hb. reflexivity. }
  erewrite bind_Returned by exact E. reflexivity.
Qed.

Lemma collection_Add_one (x : addr) (w : world) :
  collection_Add [VObj x] w =
    Returned tt
      (mkWorld (objects w)
         (nodes w ++ [Node.mk x EmptyString [] [] []])
         (Collection.mk
            (Collection.SliceList (col w) ++ [VNode (length (nodes w))])
            (Collection.label (col w))
            (Collection.added (col w) ++ [VNode (length (nodes w))])
            (Collection.modified (col w)) (Collection.deleted (col w)))
         (sent w)).
Proof. reflexivity. Qed.

Lemma is_row_grow w w' v :
  objects w' = objects w -> (exists more, nodes w' = nodes w ++ more) ->
  is_row w v = true -> is_row w' v = true.
Proof.
  intros Ho (more & Hn) H.
  destruct (is_row_inv w v H) as (p & n & o & -> & Hp & Hobj).
  unfold is_row. rewrite Hn, (lookup_app_l_Some _ _ _ _ Hp), Ho, Hobj.
  reflexivity.
Qed.

Lemma rows_grow w w' l :
  objects w' = objects w -> (exists more, nodes w' = nodes w ++ more) ->
  forallb (is_row w) l = true -> forallb (is_row w') l = true.
Proof.
  intros Ho Hn. induction l as [| v l IH]; simpl; auto.
  intros H. apply andb_prop in H as [Hv Hl].
  rewrite (is_row_grow w w' v Ho Hn Hv). auto.
Qed.

(** ** What the mutations leave behind *)

(** [node.Commit] never writes [modified], whatever the store answers. *)
Lemma node_Commit_never_clears_modified (conn : session) (ego : addr)
    (w : world) (n : Node.t) :
  node_at w ego = Some n ->
  exists n', node_at (final (node_Commit conn ego w)) ego = Some n'
             /\ Node.modified n' = Node.modified n.
Proof.
  intros Hn.
  destruct (step_node_Commit conn ego w) as (_ & _ & Hnodes & _).
  destruct (Forall2_lookup_l _ _ _ _ _ Hnodes Hn) as (n' & Hn' & Hsame).
  exists n'. split; [exact Hn' | apply Hsame].
Qed.

(** [collection.Insert] makes no node: the value itself is what [added]
    gets, also when the index is then refused. *)
Lemma collection_Insert_registers_value (index : Z) (value : any) (w : world) :
  is_Object value = true ->
  nodes (final (collection_Insert index value w)) = nodes w /\
  Collection.added (col (final (collection_Insert index value w))) =
    Collection.added (col w) ++ [value].
Proof.
  intros H. unfold collection_Insert. rewrite H. cbn [negb].
  unfold set_added, set_SliceList, load_col, store_col, from_option, bind,
    get, put, ret, raise; simpl.
  destruct (anytype.SliceList.Insert _ index value); simpl; auto.
Qed.

Lemma any_eqb_refl (v : any) : any_eqb v v = true.
Proof.
  destruct v; simpl; auto using Z.eqb_refl, String.eqb_refl, Nat.eqb_refl.
  destruct b; reflexivity.
Qed.

Lemma any_eqb_sym (a b : any) : any_eqb a b = any_eqb b a.
Proof.
  destruct a, b; simpl; auto using Z.eqb_sym, String.eqb_sym, Nat.eqb_sym.
  destruct b, b0; reflexivity.
Qed.

Lemma Contains_last (l : list any) (v : any) :
  anytype.SliceList.Contains (l ++ [v]) v = true.
Proof.
  unfold anytype.SliceList.Contains. rewrite existsb_app. simpl.
  rewrite any_eqb_refl. apply orb_true_iff. right. reflexivity.
Qed.

Lemma IndexOf_last (l : list any) (v : any) :
  anytype.SliceList.Contains l v = false ->
  anytype.SliceList.IndexOf (l ++ [v]) v = Z.of_nat (length l).
Proof.
  unfold anytype.SliceList.Contains.
  induction l as [| x l IH]; simpl; intros H.
  - rewrite any_eqb_refl. reflexivity.
  - apply orb_false_iff in H as [Hx Hl].
    rewrite any_eqb_sym, Hx, (IH Hl).
    destruct (Z.ltb_spec (Z.of_nat (length l)) 0); lia.
Qed.

Lemma Delete_last (l : list any) (v : any) :
  anytype.SliceList.Delete (l ++ [v]) [Z.of_nat (length l)] = Some l.
Proof.
  unfold anytype.SliceList.Delete, anytype.SliceList.Delete1,
    anytype.SliceList.in_range, anytype.SliceList.Count.
  rewrite length_app. simpl.
  destruct (Z.leb_spec 0 (Z.of_nat (length l))); [| lia].
  destruct (Z.ltb_spec (Z.of_nat (length l)) (Z.of_nat (length l + 1)));
    [| lia].
  simpl. rewrite Nat2Z.id. f_equal. clear.
  induction l as [| x l IH]; simpl; [reflexivity | f_equal; exact IH].
Qed.

Section SetThenUnset.

#[local] Arguments anytype.SliceList.Contains : simpl never.
#[local] Arguments anytype.SliceList.IndexOf : simpl never.
#[local] Arguments anytype.SliceList.Delete : simpl never.
#[local] Arguments anytype.SliceList.Add : simpl never.
#[local] Arguments anytype.MapObject.Unset : simpl never.
#[local] Arguments anytype.MapObject.set1 : simpl never.

(** The part of C5 the code does: a key that is neither stored nor pending
    is set and then unset; the three dirty lists are the ones before, and
    the field is gone again. *)
Lemma Set_then_Unset_new_key (ego : addr) (key : string) (v : any) (w : world)
    (n : Node.t) (o : fields) :
  node_at w ego = Some n ->
  objects w !! Node.MapObject n = Some o ->
  anytype.MapObject.KeyExists o key = false ->
  anytype.SliceList.Contains (Node.added n) (VStr key) = false ->
  exists w',
    (node_Set ego [VStr key; v] >> node_Unset ego [key]) w = Returned tt w' /\
    node_at w' ego = Some n /\
    fields_of w' ego =
      Some (anytype.MapObject.Unset (anytype.MapObject.set1 o key v) [key]).
Proof.
  intros Hn Ho Hk Ha. unfold node_at in Hn.
  assert (Hlt : (ego < length (nodes w))%nat) by (eapply lookup_lt_Some, Hn).
  assert (Hlo : (Node.MapObject n < length (objects w))%nat)
    by (eapply lookup_lt_Some, Ho).
  unfold node_Set, node_Unset, Set_keys, Unset_key, register_modified,
    MapObject_Set, for_each, load_node, load_object, load_col, store_node,
    store_object, store_col, from_option, bind, get, put, ret, raise.
  cbn [length Nat.even Z.of_nat]. simpl (_ mod 2 =? 0).
  cbv iota. simpl.
  rewrite Hn, Ha. simpl. rewrite Ho, Hk. simpl.
  destruct (anytype.SliceList.Contains (Collection.modified (col w))
              (VNode ego)) eqn:Hc; simpl.
  - rewrite list_lookup_insert_eq by exact Hlt. simpl. rewrite Ho. simpl.
    rewrite list_lookup_insert_eq by exact Hlt. simpl.
    unfold anytype.SliceList.Add.
    rewrite Contains_last, (IndexOf_last _ _ Ha), Delete_last. simpl.
    rewrite Hc. simpl.
    rewrite list_lookup_insert_eq by (rewrite length_insert; exact Hlt). simpl.
    rewrite list_lookup_insert_eq by exact Hlo. simpl.
    eexists. split; [reflexivity |]. unfold node_at, fields_of. simpl.
    rewrite !list_insert_insert_eq.
    rewrite list_lookup_insert_eq by exact Hlt.
    split; [destruct n; reflexivity |].
    simpl. rewrite list_lookup_insert_eq by exact Hlo. reflexivity.
  - rewrite list_lookup_insert_eq by exact Hlt. simpl. rewrite Ho. simpl.
    rewrite list_lookup_insert_eq by exact Hlt. simpl.
    unfold anytype.SliceList.Add.
    rewrite Contains_last, (IndexOf_last _ _ Ha), Delete_last. simpl.
    rewrite Contains_last. simpl.
    rewrite list_lookup_insert_eq by (rewrite length_insert; exact Hlt). simpl.
    rewrite list_lookup_insert_eq by exact Hlo. simpl.
    eexists. split; [reflexivity |]. unfold node_at, fields_of. simpl.
    rewrite !list_insert_insert_eq.
    rewrite list_lookup_insert_eq by exact Hlt.
    split; [destruct n; reflexivity |].
    simpl. rewrite list_lookup_insert_eq by exact Hlo. reflexivity.
Qed.

End SetThenUnset.

(** ** The calls of the commits *)



















(** ** The panics of the commits *)








(** ** The phases, call by call *)









(** ** The nodes after the phases *)







(** * The specification *)

(** ** Node.Clear *)

(** C9: [node.Clear] fails for every node and every state, and the state it
    leaves is the state it found: no field store and no dirty list is
    written. *)
Theorem node_Clear_fails (ego : addr) (w : world) :
  node_Clear ego w = Panicked (PanicMsg "Cannot clear a Neo4j node.") w.
Proof. reflexivity. Qed.

(** ** connection.Query *)

(** C10: [Query] never answers a nil list.  When [session.Run] fails the
    list is empty; when the iteration stops on an error the list holds the
    rows gathered before it, next to the error. *)
Theorem Query_list_never_nil (conn : session) (query : string)
    (params : option fields) (w : world) :
  exists rows err w',
    Query conn query params w = Returned (Some rows, err) w' /\
    match conn (sent w) (TrimSpace query) params with
    | RunError e => rows = [] /\ err = Some e
    | RunResult records Err => rows = map convert_record records /\ err = Err
    end.
Proof.
  unfold Query.
  destruct (conn (sent w) (TrimSpace query) params) as [e | records [e |]];
    eexists _, _, _; split; try reflexivity; split; reflexivity.
Qed.

(** ** Node.Commit *)

(** C1: a node whose only pending key is a modified one.  The first commit
    succeeds and sends the one update query, but the node still holds the
    key in [modified]; the second commit, with nothing changed in between,
    sends the same query again. *)
Theorem node_Commit_keeps_modified :
  let w0 := final (node_Set 0%nat [VStr "name"; VStr "Z"] persons) in
  let o1 := node_Commit demo_session 0%nat w0 in
  let o2 := node_Commit demo_session 0%nat (final o1) in
  let update := (update_cypher "Person" "4:abc:1" [VStr "name"],
                 Some [("name", VStr "Z")]) in
  (Node.modified <$> node_at w0 0%nat) = Some [VStr "name"] /\
  returned o1 = true /\
  issued w0 o1 = [update] /\
  (Node.added <$> node_at (final o1) 0%nat) = Some [] /\
  (Node.modified <$> node_at (final o1) 0%nat) = Some [VStr "name"] /\
  returned o2 = true /\
  issued (final o1) o2 = [update].
Proof. vm_compute. repeat split. Qed.

(** ** Collection.Delete *)

(** C2: deleting the second of the two loaded rows.  The row looked up for
    the tracking is the one at position [0] of the argument list, that is
    the first row: its identity is queued, the second row leaves [rows], and
    the commit deletes the first person in the store. *)
Theorem collection_Delete_tracks_wrong_row :
  let o1 := collection_Delete [1] persons in
  let o2 := collection_Commit demo_session (final o1) in
  Collection.SliceList (col persons) = [VNode 0%nat; VNode 1%nat] /\
  (Node.id <$> node_at persons 0%nat) = Some "4:abc:1" /\
  (Node.id <$> node_at persons 1%nat) = Some "4:abc:2" /\
  returned o1 = true /\
  Collection.SliceList (col (final o1)) = [VNode 0%nat] /\
  Collection.deleted (col (final o1)) = [VStr "4:abc:1"] /\
  returned o2 = true /\
  issued (final o1) o2 =
    [(TrimSpace (delete_cypher "Person"), Some [("id", VStr "4:abc:1")])].
Proof. vm_compute. repeat split. Qed.

(** ** Collection.Insert *)

(** C3: inserting a fresh object.  No node is made: the object itself goes
    to [added] and to the rows, where [Add] puts a new node.  The commit
    that follows panics on the object before it sends anything. *)
Theorem collection_Insert_does_not_wrap :
  let w0 := final (NewObject [("name", VStr "C")] persons) in
  let o1 := collection_Insert 0 (VObj 2%nat) w0 in
  let o2 := collection_Commit demo_session (final o1) in
  let o3 := collection_Add [VObj 2%nat] w0 in
  returned o1 = true /\
  nodes (final o1) = nodes w0 /\
  Collection.added (col (final o1)) = [VObj 2%nat] /\
  Collection.SliceList (col (final o1)) =
    [VObj 2%nat; VNode 0%nat; VNode 1%nat] /\
  o2 = Panicked bad_conversion (final o1) /\
  Collection.added (col (final o3)) = [VNode 2%nat] /\
  node_at (final o3) 2%nat = Some (Node.mk 2%nat EmptyString [] [] []) /\
  returned (collection_Commit demo_session (final o3)) = true.
Proof. vm_compute. repeat split. Qed.

(** ** Node.Set and Node.Unset *)

(** C4: unsetting a stored key and setting it again.  [Set] never looks at
    [deleted]: the key ends both in [added] and in [deleted], and the commit
    sends the new value and then nulls the property, while the node keeps
    the new value. *)
Theorem node_Set_keeps_pending_delete :
  let o1 := (node_Unset 0%nat ["name"] >>
             node_Set 0%nat [VStr "name"; VStr "Z"]) persons in
  let o2 := collection_Commit demo_session (final o1) in
  returned o1 = true /\
  (Node.added <$> node_at (final o1) 0%nat) = Some [VStr "name"] /\
  (Node.deleted <$> node_at (final o1) 0%nat) = Some [VStr "name"] /\
  returned o2 = true /\
  issued (final o1) o2 =
    [(update_cypher "Person" "4:abc:1" [VStr "name"],
      Some [("name", VStr "Z")]);
     (TrimSpace (unset_cypher "Person" "4:abc:1" "name"), None)] /\
  fields_of (final o2) 0%nat = Some [("age", VInt 30); ("name", VStr "Z")].
Proof. vm_compute. repeat split. Qed.

(** C5: unsetting a key that is in [modified].  The position handed to
    [modified.Delete] is the key's position in [added], where the key is
    not: the call panics, the key stays in [modified] and the field stays
    in the object. *)
Theorem node_Unset_modified_key_panics :
  let w0 := final (node_Set 0%nat [VStr "name"; VStr "Z"; VStr "age"; VInt 31]
                     persons) in
  let o1 := node_Unset 0%nat ["name"] w0 in
  (Node.added <$> node_at w0 0%nat) = Some [] /\
  (Node.modified <$> node_at w0 0%nat) = Some [VStr "name"; VStr "age"] /\
  o1 = Panicked out_of_range w0.
Proof. vm_compute. repeat split. Qed.

(** C6: an odd-length [Set] on a loaded node that no dirty list holds.  The
    test of the length guards the loop over the keys only: the call fails,
    but not before it has registered the node in the collection's
    [modified], which was empty. *)
Theorem node_Set_odd_registers_row :
  let o := node_Set 0%nat [VStr "name"] persons in
  returned o = false /\
  Collection.modified (col persons) = [] /\
  Collection.modified (col (final o)) = [VNode 0%nat].
Proof. vm_compute. repeat split. Qed.

(** The same for every node and every odd-length argument list: the
    registration is the one write of the call.  The rejection is the one of
    the field store's own [Set], as [anytype.MapObject.Set_] models it. *)
Lemma node_Set_odd_length (ego : addr) (values : list any) (w : world)
    (n : Node.t) (o : fields) :
  Nat.odd (length values) = true ->
  node_at w ego = Some n ->
  objects w !! Node.MapObject n = Some o ->
  node_Set ego values w =
    Panicked (PanicMsg "Object fields have to be set as key-value pairs.")
      (mkWorld (objects w) (nodes w)
         (Collection.mk (Collection.SliceList (col w))
            (Collection.label (col w)) (Collection.added (col w))
            (if anytype.SliceList.Contains (Collection.modified (col w))
                  (VNode ego)
             then Collection.modified (col w)
             else Collection.modified (col w) ++ [VNode ego])
            (Collection.deleted (col w)))
         (sent w)).
Proof.
  intros Hodd Hn Ho.
  assert (Heven : Nat.even (length values) = false).
  { rewrite <- Nat.negb_odd, Hodd. reflexivity. }
  assert (Hmod : (Z.of_nat (length values) mod 2 =? 0) = false).
  { apply Z.eqb_neq. intros H.
    assert (Hdiv : (2 | Z.of_nat (length values))) by
      (apply Z.mod_divide; [lia | exact H]).
    destruct Hdiv as [k Hk].
    assert (Nat.Even (length values)) by (exists (Z.to_nat k); lia).
    apply Nat.even_spec in H0. congruence. }
  unfold node_at in Hn.
  unfold node_Set. rewrite Hmod.
  unfold bind at 1 2; simpl.
  unfold register_modified, MapObject_Set, load_col, load_node, load_object,
    store_col, store_object, bind, get, put, ret, raise; simpl.
  destruct w as [objs nds [rows lbl ad md dl] snt]; simpl in *.
  destruct (anytype.SliceList.Contains md (VNode ego)); simpl;
    rewrite Hn; simpl; rewrite Ho; unfold anytype.MapObject.Set_;
    rewrite Heven; simpl; rewrite list_insert_id by exact Ho; reflexivity.
Qed.

Lemma node_Set_odd_length_witness :
  node_Set 0%nat [VStr "name"] persons =
    Panicked (PanicMsg "Object fields have to be set as key-value pairs.")
      (mkWorld (objects persons) (nodes persons)
         (Collection.mk [VNode 0%nat; VNode 1%nat] "Person" [] [VNode 0%nat] [])
         (sent persons)).
Proof.
  apply (node_Set_odd_length 0%nat [VStr "name"] persons
           (Node.mk 0%nat "4:abc:1" [] [] [])
           [("name", VStr "A"); ("age", VInt 30)]); reflexivity.
Defined.

(** ** Collection.Commit *)


(** A commit that returns: one row was added, one changed and one deleted.
    The three lists of calls of the theorem above are the create of the new
    row, the delete of the old one and the update of the changed one. *)
Example collection_Commit_sends_all :
  let w0 := final ((collection_Add [VObj 2%nat] >>
                    node_Set 1%nat [VStr "name"; VStr "Y"] >>
                    collection_Delete [0]) before_Add) in
  let o := collection_Commit demo_session w0 in
  let creates :=
    [(create_cypher "Person" [("name", VStr "C")],
      Some [("name", VStr "C")])] in
  let deletes :=
    [(TrimSpace (delete_cypher "Person"), Some [("id", VStr "4:abc:1")])] in
  let updates :=
    [(update_cypher "Person" "4:abc:2" [VStr "name"],
      Some [("name", VStr "Y")])] in
  returned o = true /\
  creates_of "Person" (objects w0) (nodes w0) (Collection.added (col w0))
    = creates /\
  deletes_of "Person"
    (anytype.SliceList.StringSlice (Collection.deleted (col w0))) = deletes /\
  updates_of "Person" (objects w0) (nodes w0) (Collection.modified (col w0))
    = updates /\
  issued w0 o = creates ++ deletes ++ updates /\
  (Node.id <$> node_at w0 2%nat) = Some EmptyString /\
  (Node.id <$>
     created demo_session "Person" (objects w0) (sent w0) (nodes w0)
       (Collection.added (col w0)) !! 2%nat) = Some "4:abc:3" /\
  (Node.id <$> node_at (final o) 2%nat) = Some "4:abc:3".
Proof. vm_compute. repeat split. Qed.

(** A commit that fails in its second phase: one row was added, one changed
    and one deleted, and the store refuses row deletes.  The create was sent
    and its identifier is kept; the delete is the last call; [deleted] and
    [modified] are as they were. *)
Example collection_Commit_refused_delete :
  let w0 := final ((collection_Add [VObj 2%nat] >>
                    node_Set 1%nat [VStr "name"; VStr "Y"] >>
                    collection_Delete [0]) before_Add) in
  let o := collection_Commit readonly_session w0 in
  Collection.added (col w0) = [VNode 2%nat] /\
  Collection.deleted (col w0) = [VStr "4:abc:1"] /\
  Collection.modified (col w0) = [VNode 1%nat] /\
  panic_of o = Some (PanicErr "read only") /\
  issued w0 o =
    [(create_cypher "Person" [("name", VStr "C")], Some [("name", VStr "C")]);
     (TrimSpace (delete_cypher "Person"), Some [("id", VStr "4:abc:1")])] /\
  (Node.id <$> node_at (final o) 2%nat) = Some "4:abc:3" /\
  Collection.added (col (final o)) = [] /\
  Collection.deleted (col (final o)) = [VStr "4:abc:1"] /\
  Collection.modified (col (final o)) = [VNode 1%nat].
Proof. vm_compute. repeat split. Qed.

(** C8: [Add(x)] followed by [Commit()], in a collection in which an object
    was inserted before.  [added] holds the inserted object, which is not a
    node, in front of the node made for [x]; the commit panics on the
    conversion of the object, before it sends any call.  The node made for
    [x] keeps its empty identity and stays in [added], although the store
    would have answered its create with an identifier. *)
Theorem Add_after_Insert_Commit_panics :
  let w := inserted_then_added in
  let o := collection_Commit demo_session w in
  Collection.added (col w) = [VObj 2%nat; VNode 2%nat] /\
  node_at w 2%nat = Some (Node.mk 3%nat EmptyString [] [] []) /\
  fields_of w 2%nat = Some [("name", VStr "D")] /\
  o = Panicked bad_conversion w /\
  issued w o = [] /\
  (Node.id <$> node_at (final o) 2%nat) = Some EmptyString /\
  Collection.added (col (final o)) = [VObj 2%nat; VNode 2%nat].
Proof. vm_compute. repeat split. Qed.

(** * Further properties of the package *)

(** ** Adding a row and committing *)

(** X22: in a collection whose tracked rows are nodes, and with a store that
    fails no call and answers a create with a single row that holds an
    identifier, [Add(x)] followed by [Commit()] returns.  The node made for
    [x] then has the identifier the store answered to its create; [added]
    is empty; and the node's object is [x], with the fields it had. *)
Theorem Add_then_Commit (conn : session) (w : world) (x : addr) (o : fields) :
  objects w !! x = Some o ->
  tracked_rows w = true ->
  succeeds conn ->
  assigns_identity conn ->
  exists w1 w2 n sid calls rest,
    collection_Add [VObj x] w = Returned tt w1 /\
    collection_Commit conn w1 = Returned tt w2 /\
    node_at w2 (length (nodes w)) = Some n /\
    conn calls (TrimSpace (create_cypher (Collection.label (col w)) o))
      (Some o) = RunResult [[("elementId(n)", DbValue (VStr sid))]] None /\
    sent w2 =
      calls ++
      (TrimSpace (create_cypher (Collection.label (col w)) o), Some o)
      :: rest /\
    Node.id n = sid /\
    Collection.added (col w2) = [] /\
    Collection.SliceList (col w2) =
      Collection.SliceList (col w) ++ [VNode (length (nodes w))] /\
    Node.MapObject n = x /\
    fields_of w2 (length (nodes w)) = Some o.
Proof.
  intros Hx Hrows Hs Hid.
  apply andb_prop in Hrows as [Hadded Hmodified].
  pose proof (collection_Add_one x w) as EAdd.
  set (p := length (nodes w)) in *.
  set (w1 := mkWorld _ _ _ _) in EAdd.
  assert (Hgrow : exists more, nodes w1 = nodes w ++ more)
    by (eexists; reflexivity).
  assert (Hadded1 := rows_grow w w1 _ eq_refl Hgrow Hadded).
  assert (Hmodified1 := rows_grow w w1 _ eq_refl Hgrow Hmodified).
  assert (Hp1 : nodes w1 !! p = Some (Node.mk x EmptyString [] [] []))
    by apply list_lookup_middle, eq_refl.
  (* the creates of the rows added before *)
  pose proof (create_rows_return conn Hid _ w1 Hadded1) as Ra.
  apply returned_final in Ra.
  set (wa := final (for_each (create_row conn) (Collection.added (col w)) w1))
    in *.
  assert (Sa : step conn (create_call (Collection.label (col w1))) same_but_id
                 w1 (for_each (create_row conn) (Collection.added (col w)) w1)).
  { apply step_for_each; eauto using same_but_id_refl, same_but_id_trans.
    intros v w' _ Hc. rewrite <- Hc. apply step_create_row. }
  destruct Sa as (Hobj_a & Hcol_a & Hnodes_a & _).
  fold wa in Hobj_a, Hcol_a, Hnodes_a.
  destruct (Forall2_lookup_l _ _ _ _ _ Hnodes_a Hp1) as (na & Hna & Hsame).
  destruct Hsame as (Hmap & _). simpl in Hmap.
  assert (Hxa : objects wa !! Node.MapObject na = Some o)
    by (rewrite Hmap, Hobj_a; exact Hx).
  (* the create of the new row *)
  destruct (Hid (sent wa) (Collection.label (col wa)) o) as (sid & Hc).
  pose proof (create_row_VNode conn p wa na o sid Hna Hxa Hc) as Eb.
  set (wb := mkWorld _ _ _ _) in Eb.
  pose proof (Commit_added_last conn w1 _ p wa wb eq_refl Ra Eb) as E1.
  set (wc := mkWorld _ _ _ _) in E1.
  assert (Hpb : nodes wc !! p =
                Some (Node.mk (Node.MapObject na) sid (Node.added na)
                        (Node.modified na) (Node.deleted na))).
  { simpl. apply list_lookup_insert_eq. eapply lookup_lt_Some, Hna. }
  assert (Hnodes_c : Forall2 same_but_id (nodes w1) (nodes wc)).
  { eapply Forall2_trans_with;
      [exact same_but_id_trans | exact Hnodes_a |].
    simpl. eapply Forall2_update; eauto using same_but_id_refl.
    repeat split. }
  (* the row deletes *)
  pose proof (Commit_deleted_returns conn wc Hs) as R2.
  apply returned_final in R2.
  destruct (phase_Commit_deleted conn wc)
    as (Hobj_d & Hnodes_d & Hsent_d & Hcol_d).
  rewrite R2 in Hcol_d.
  set (wd := final (Commit_deleted conn wc)) in *. simpl in Hcol_d.
  apply Forall2_eq_nodes in Hnodes_d.
  destruct Hsent_d as (ds & Hsent_d & _).
  (* the field commits *)
  assert (Hmodified_d :
            forallb (is_row wd) (Collection.modified (col wd)) = true).
  { rewrite Hcol_d. simpl. rewrite Hcol_a. simpl.
    eapply (rows_preserved same_but_id w1 wd);
      eauto using same_but_id_MapObject.
    - rewrite Hobj_d. simpl. exact Hobj_a.
    - rewrite <- Hnodes_d. exact Hnodes_c. }
  pose proof (Commit_modified_returns conn wd Hs Hmodified_d) as R3.
  apply returned_final in R3.
  destruct (phase_Commit_modified conn wd)
    as (Hobj_2 & Hnodes_2 & Hsent_2 & Hcol_2).
  rewrite R3 in Hcol_2.
  set (w2 := final (Commit_modified conn wd)) in *. simpl in Hcol_2.
  destruct Hsent_2 as (fs & Hsent_2 & _).
  rewrite <- Hnodes_d in Hnodes_2.
  destruct (Forall2_lookup_l _ _ _ _ _ Hnodes_2 Hpb) as (n & Hn & Hsame).
  destruct Hsame as (Hmap_n & Hid_n & _). simpl in Hmap_n, Hid_n.
  exists w1, w2, n, sid, (sent wa), (ds ++ fs).
  assert (Hlabel : Collection.label (col wa) = Collection.label (col w))
    by (rewrite Hcol_a; reflexivity).
  rewrite Hlabel in Hc.
  split; [exact EAdd |].
  split.
  { unfold collection_Commit.
    erewrite bind_Returned by exact E1.
    erewrite bind_Returned by exact R2. exact R3. }
  split; [exact Hn |].
  split; [exact Hc |].
  split.
  { rewrite Hsent_2, Hsent_d. simpl. rewrite Hlabel, <- !app_assoc.
    reflexivity. }
  split; [exact Hid_n |].
  split; [rewrite Hcol_2, Hcol_d; reflexivity |].
  split; [rewrite Hcol_2, Hcol_d; simpl; rewrite Hcol_a; reflexivity |].
  split; [congruence |].
  unfold fields_of. unfold node_at in Hn. rewrite Hn, Hmap_n, Hmap.
  rewrite Hobj_2, Hobj_d. simpl. rewrite Hobj_a. exact Hx.
Qed.

Lemma trim_right_cons (c : ascii) (t : string) :
  is_space c = false -> is_lead c = false ->
  trim_right (String c t) = String c (trim_right t).
Proof.
  intros H L. change (trim_right (String c t))
    with (if all_space (String c t) then EmptyString
          else String c (trim_right t)).
  change (all_space (String c t))
    with (if is_space c then all_space t
          else if negb (is_lead c) then false
          else match t with
               | String c2 t2 =>
                   if two_byte_space c c2 then all_space t2
                   else match t2 with
                        | String c3 t3 =>
                            if three_byte_space c c2 c3 then all_space t3
                            else false
                        | EmptyString => false
                        end
               | EmptyString => false
               end).
  rewrite H, L. reflexivity.
Qed.

Lemma trim_left_cons (c : ascii) (t : string) :
  is_space c = false -> is_lead c = false ->
  trim_left (String c t) = String c t.
Proof. intros H L. simpl. rewrite H, L. reflexivity. Qed.

Lemma TrimSpace_create (label : string) (o : fields) :
  exists rest, TrimSpace (create_cypher label o) = "CREATE" +:+ rest.
Proof.
  unfold TrimSpace, create_cypher.
  change ("CREATE (n:" +:+ ?r) with
    (String "C" (String "R" (String "E" (String "A" (String "T"
       (String "E" (" (n:" +:+ r))))))).
  rewrite trim_left_cons by reflexivity.
  rewrite !trim_right_cons by reflexivity.
  eexists. reflexivity.
Qed.

Lemma demo_session_succeeds : succeeds demo_session.
Proof.
  intros calls query params. unfold demo_session.
  destruct (String.prefix "CREATE" query); [eexists; reflexivity |].
  destruct (String.prefix _ query); eexists; reflexivity.
Qed.

Lemma demo_session_assigns : assigns_identity demo_session.
Proof.
  intros calls label o. exists "4:abc:3".
  unfold demo_session. destruct (TrimSpace_create label o) as (rest & ->).
  destruct rest; reflexivity.
Qed.

Lemma Add_then_Commit_witness :
  exists w1 w2 n sid calls rest,
    collection_Add [VObj 2%nat] before_Add = Returned tt w1 /\
    collection_Commit demo_session w1 = Returned tt w2 /\
    node_at w2 (length (nodes before_Add)) = Some n /\
    demo_session calls
      (TrimSpace (create_cypher (Collection.label (col before_Add))
                    [("name", VStr "C")]))
      (Some [("name", VStr "C")]) =
      RunResult [[("elementId(n)", DbValue (VStr sid))]] None /\
    sent w2 =
      calls ++
      (TrimSpace (create_cypher (Collection.label (col before_Add))
                    [("name", VStr "C")]), Some [("name", VStr "C")])
      :: rest /\
    Node.id n = sid /\
    Collection.added (col w2) = [] /\
    Collection.SliceList (col w2) =
      Collection.SliceList (col before_Add)
      ++ [VNode (length (nodes before_Add))] /\
    Node.MapObject n = 2%nat /\
    fields_of w2 (length (nodes before_Add)) = Some [("name", VStr "C")].
Proof.
  apply (Add_then_Commit demo_session before_Add 2%nat [("name", VStr "C")]).
  - reflexivity.
  - reflexivity.
  - exact demo_session_succeeds.
  - exact demo_session_assigns.
Defined.

(** ** Query texts *)

Lemma append_assoc (a b c : string) : (a +:+ b) +:+ c = a +:+ (b +:+ c).
Proof.
  induction a as [| x a IH]; [reflexivity |].
  change (String x ((a +:+ b) +:+ c) = String x (a +:+ (b +:+ c))).
  f_equal. exact IH.
Qed.

Lemma append_nil_r (a : string) : a +:+ EmptyString = a.
Proof.
  induction a as [| x a IH]; [reflexivity |].
  change (String x (a +:+ EmptyString) = String x a).
  f_equal. exact IH.
Qed.

(** The loop of [node.template] from any counter [i] that has
    [length l] fields left before it reaches the count [n]. *)
Lemma template_loop (n : Z) (l : fields) (acc : string) (i : Z) :
  i + Z.of_nat (length l) = n ->
  fst (fold_left
         (fun (acc : string * Z) (kv : string * any) =>
            (if snd acc + 1 <? n
             then (fst acc +:+ fst kv +:+ ":$" +:+ fst kv) +:+ ","
             else fst acc +:+ fst kv +:+ ":$" +:+ fst kv,
             snd acc + 1))
         l (acc, i)) =
  acc +:+ String.concat ","
            (map (fun kv : string * any => fst kv +:+ ":$" +:+ fst kv) l).
Proof.
  revert acc i. induction l as [| kv l IH]; intros acc i Hn.
  - simpl. rewrite append_nil_r. reflexivity.
  - cbn [fold_left fst snd map]. rewrite IH by (simpl length in Hn; lia).
    destruct l as [| kv' l].
    + cbn [map String.concat length] in *.
      destruct (Z.ltb_spec (i + 1) n); [lia |].
      rewrite append_nil_r. reflexivity.
    + cbn [length] in Hn.
      destruct (Z.ltb_spec (i + 1) n); [| lia].
      cbn [map String.concat]. rewrite !append_assoc. reflexivity.
Qed.

(** X1: the property literal of [node.template] is the fields in their
    order, each as [key:$key], separated by commas and with no comma after
    the last one, between braces; it is [{}] for a node with no field. *)
Theorem template_lists_fields (o : fields) :
  template o =
  "{" +:+ String.concat ","
            (map (fun kv : string * any => fst kv +:+ ":$" +:+ fst kv) o)
  +:+ "}".
Proof.
  unfold template, anytype.MapObject.Count.
  rewrite (template_loop (Z.of_nat (length o)) o "{" 0) by lia.
  rewrite append_assoc. reflexivity.
Qed.








(** ** A node commit the store accepts *)

Lemma unset_keys_calls conn ego n :
  succeeds conn ->
  forall keys w, nodes w !! ego = Some n ->
    for_each (unset_key conn ego) keys w =
      Returned tt
        (mkWorld (objects w) (nodes w) (col w)
           (sent w ++
            map (fun key =>
                   (TrimSpace (unset_cypher (Collection.label (col w))
                                 (Node.id n) key), None)) keys)).
Proof.
  intros Hs. induction keys as [| key keys IH]; intros w Hn.
  - simpl. rewrite app_nil_r. destruct w; reflexivity.
  - cbn [for_each map].
    assert (E1 : unset_key conn ego key w =
                 Returned tt
                   (mkWorld (objects w) (nodes w) (col w)
                      (sent w ++
                       [(TrimSpace (unset_cypher (Collection.label (col w))
                                      (Node.id n) key), None)]))).
    { unfold unset_key, load_node, load_col, bind, get, ret, raise.
      rewrite Hn. query_succeeds Hs. reflexivity. }
    erewrite bind_Returned by exact E1.
    rewrite (IH (mkWorld (objects w) (nodes w) (col w) _) Hn).
    cbn [objects nodes col sent]. rewrite <- app_assoc. reflexivity.
Qed.

Lemma Commit_set_keys_succeeds conn ego w n o :
  succeeds conn ->
  nodes w !! ego = Some n -> objects w !! Node.MapObject n = Some o ->
  Commit_set_keys conn ego w =
    Returned tt
      (mkWorld (objects w)
         (<[ego := Node.mk (Node.MapObject n) (Node.id n) []
                     (Node.modified n) (Node.deleted n)]> (nodes w))
         (col w)
         (sent w ++ set_calls (Collection.label (col w)) n o)).
Proof.
  intros Hs Hn Ho.
  unfold Commit_set_keys, set_calls, load_node, load_col, load_object,
    store_node, bind, get, put, ret, raise.
  rewrite Hn.
  destruct (negb (anytype.SliceList.Empty (Node.added n))
            || negb (anytype.SliceList.Empty (Node.modified n))) eqn:E.
  - rewrite Ho. cbv zeta. query_succeeds Hs. simpl. rewrite Hn. reflexivity.
  - apply orb_false_iff in E as [Ea _].
    assert (Node.added n = []) as Hadded
      by (destruct (Node.added n); [reflexivity | discriminate]).
    rewrite app_nil_r. rewrite <- Hadded.
    replace (Node.mk (Node.MapObject n) (Node.id n) (Node.added n)
               (Node.modified n) (Node.deleted n)) with n
      by (destruct n; reflexivity).
    rewrite list_insert_id by exact Hn. destruct w; reflexivity.
Qed.

Lemma Commit_unset_keys_succeeds conn ego w n :
  succeeds conn -> nodes w !! ego = Some n ->
  Commit_unset_keys conn ego w =
    Returned tt
      (mkWorld (objects w)
         (<[ego := Node.mk (Node.MapObject n) (Node.id n) (Node.added n)
                     (Node.modified n) []]> (nodes w))
         (col w)
         (sent w ++ unset_calls (Collection.label (col w)) n)).
Proof.
  intros Hs Hn. unfold Commit_unset_keys, unset_calls.
  erewrite bind_Returned
    by (unfold load_node, bind, get, ret; rewrite Hn; reflexivity).
  destruct (Node.deleted n) eqn:E.
  - cbn [anytype.SliceList.Empty negb anytype.SliceList.StringSlice map].
    rewrite app_nil_r. rewrite <- E.
    replace (Node.mk (Node.MapObject n) (Node.id n) (Node.added n)
               (Node.modified n) (Node.deleted n)) with n
      by (destruct n; reflexivity).
    rewrite list_insert_id by exact Hn. destruct w; reflexivity.
  - cbn [anytype.SliceList.Empty negb].
    erewrite bind_Returned by (apply (unset_keys_calls conn ego n Hs), Hn).
    unfold load_node, store_node, bind, get, put, ret.
    cbn [nodes]. rewrite Hn. rewrite E. reflexivity.
Qed.

(** X3: a node commit that the store accepts.  It sends the update call
    when a key is pending, then one call per unset key, in order; it empties
    [added] and [deleted] and leaves [modified], the identity, the fields
    and the collection as they are. *)
Theorem node_Commit_succeeds (conn : session) (ego : addr) (w : world)
    (n : Node.t) (o : fields) :
  succeeds conn ->
  node_at w ego = Some n ->
  objects w !! Node.MapObject n = Some o ->
  node_Commit conn ego w =
    Returned tt
      (mkWorld (objects w)
         (<[ego := Node.mk (Node.MapObject n) (Node.id n) []
                     (Node.modified n) []]> (nodes w))
         (col w)
         (sent w ++ set_calls (Collection.label (col w)) n o
                 ++ unset_calls (Collection.label (col w)) n)).
Proof.
  intros Hs Hn Ho. unfold node_at in Hn. unfold node_Commit.
  erewrite bind_Returned by (eapply Commit_set_keys_succeeds; eauto).
  erewrite Commit_unset_keys_succeeds; [| exact Hs |].
  2:{ cbn [nodes]. apply list_lookup_insert_eq. eapply lookup_lt_Some, Hn. }
  cbn [objects nodes col sent Node.MapObject Node.id Node.added Node.modified
       Node.deleted].
  rewrite list_insert_insert_eq, <- app_assoc. reflexivity.
Qed.

Lemma node_Commit_succeeds_witness :
  node_Commit demo_session 0%nat changed_person =
    Returned tt
      (mkWorld (objects changed_person)
         (<[0%nat := Node.mk (Node.MapObject changed_node)
                       (Node.id changed_node) []
                       (Node.modified changed_node) []]>
            (nodes changed_person))
         (col changed_person)
         (sent changed_person
          ++ set_calls (Collection.label (col changed_person)) changed_node
               [("name", VStr "Z"); ("age", VInt 30); ("city", VStr "P")]
          ++ unset_calls (Collection.label (col changed_person))
               changed_node)).
Proof.
  apply (node_Commit_succeeds demo_session 0%nat changed_person changed_node
           [("name", VStr "Z"); ("age", VInt 30); ("city", VStr "P")]).
  - exact demo_session_succeeds.
  - reflexivity.
  - reflexivity.
Defined.

(** ** Result items *)

Lemma item_Get_Set (it : item) (k key : string) (v : ivalue) :
  item_Get (item_Set it k v) key =
  if String.eqb k key then Some v else item_Get it key.
Proof.
  induction it as [| [k' x] it IH]; simpl.
  - reflexivity.
  - destruct (String.eqb_spec k' k) as [-> | Hne]; simpl.
    + destruct (String.eqb k key); reflexivity.
    + rewrite IH. destruct (String.eqb_spec k' key) as [-> | Hne'].
      * destruct (String.eqb_spec k key); [congruence | reflexivity].
      * reflexivity.
Qed.

Lemma record_Get_keys (r : record) (key : string) (v : dbvalue) :
  record_Get r key = Some v -> existsb (String.eqb key) (map fst r) = true.
Proof.
  induction r as [| [k x] r IH]; simpl; [discriminate |].
  rewrite (String.eqb_sym key k).
  destruct (String.eqb k key); [reflexivity | exact IH].
Qed.

(** The loop of [Query] over the keys [ks] of the record [r], from the
    item [acc]. *)
Lemma convert_loop (r : record) (key : string) (ks : list string) (acc : item) :
  item_Get
    (fold_left
       (fun it k =>
          match record_Get r k with
          | Some value => item_Set it k (convert_value value)
          | None => it
          end)
       ks acc) key =
  match record_Get r key with
  | Some value =>
      if existsb (String.eqb key) ks then Some (convert_value value)
      else item_Get acc key
  | None => item_Get acc key
  end.
Proof.
  revert acc. induction ks as [| k ks IH]; intros acc; cbn [fold_left existsb].
  - destruct (record_Get r key); reflexivity.
  - rewrite IH. rewrite (String.eqb_sym key k).
    destruct (String.eqb_spec k key) as [-> | Hne]; cbn [orb].
    + destruct (record_Get r key) as [value |]; [| reflexivity].
      rewrite item_Get_Set, String.eqb_refl.
      destruct (existsb _ ks); reflexivity.
    + destruct (record_Get r k) as [vk |].
      * rewrite item_Get_Set.
        destruct (String.eqb_spec k key); [contradiction | reflexivity].
      * reflexivity.
Qed.

(** X4: a column of a result item is the converted value the record gives
    for that key, and a key the record does not have is not in the item. *)
Theorem convert_record_Get (r : record) (key : string) :
  item_Get (convert_record r) key =
  option_map convert_value (record_Get r key).
Proof.
  unfold convert_record. rewrite convert_loop.
  destruct (record_Get r key) as [value |] eqn:E; [| reflexivity].
  rewrite (record_Get_keys r key value E). reflexivity.
Qed.

(** ** Loading a collection *)

Lemma load_rows (rows : list stored_node) :
  forall w,
    for_each load_row (map convert_record (map load_record rows)) w =
      Returned tt
        (mkWorld
           (objects w ++ map Props_of rows)
           (nodes w ++
            imap (fun i r =>
                    Node.mk (length (objects w) + i)%nat (ElementId_of r)
                      [] [] [])
              rows)
           (Collection.mk
              (Collection.SliceList (col w) ++
               map VNode (seq (length (nodes w)) (length rows)))
              (Collection.label (col w)) (Collection.added (col w))
              (Collection.modified (col w)) (Collection.deleted (col w)))
           (sent w)).
Proof.
  induction rows as [| r rows IH]; intros w.
  - simpl. rewrite !app_nil_r. destruct w as [? ? [] ?]; reflexivity.
  - cbn [map for_each].
    assert (E : load_row (convert_record (load_record r)) w =
                Returned tt
                  (mkWorld (objects w ++ [Props_of r])
                     (nodes w ++
                      [Node.mk (length (objects w)) (ElementId_of r) [] [] []])
                     (Collection.mk
                        (Collection.SliceList (col w) ++
                         [VNode (length (nodes w))])
                        (Collection.label (col w)) (Collection.added (col w))
                        (Collection.modified (col w))
                        (Collection.deleted (col w)))
                     (sent w))) by reflexivity.
    erewrite bind_Returned by exact E.
    rewrite IH. cbn [objects nodes col sent Collection.SliceList
                     Collection.label Collection.added Collection.modified
                     Collection.deleted length seq map].
    rewrite !length_app. cbn [length].
    rewrite <- !app_assoc. cbn [app].
    rewrite imap_cons. rewrite Nat.add_0_r, !Nat.add_1_r.
    erewrite (imap_ext _ (_ ∘ S) rows); [reflexivity |].
    intros i x _. simpl. f_equal. lia.
Qed.

(** X5: when the store answers the load query with node rows,
    [NewCollection] returns no error and a collection of the given label
    whose rows are fresh nodes in the order of the answer, each with the
    [ElementId] of its row as identity, a fresh object holding its
    properties, and empty dirty lists; the dirty lists of the collection
    are empty too. *)
Theorem NewCollection_loads (conn : session) (entity : string) (w : world)
    (rows : list stored_node) :
  conn (sent w) (TrimSpace (load_cypher entity)) None =
    RunResult (map load_record rows) None ->
  NewCollection conn entity w =
    Returned None
      (mkWorld
         (objects w ++ map Props_of rows)
         (nodes w ++
          imap (fun i r =>
                  Node.mk (length (objects w) + i)%nat (ElementId_of r)
                    [] [] [])
            rows)
         (Collection.mk
            (map VNode (seq (length (nodes w)) (length rows)))
            entity [] [] [])
         (sent w ++ [(TrimSpace (load_cypher entity), None)])).
Proof.
  intros Hc. unfold NewCollection. fold (load_cypher entity).
  erewrite bind_Returned by (unfold Query; rewrite Hc; reflexivity).
  cbn [snd fst default].
  erewrite bind_Returned by reflexivity.
  erewrite bind_Returned by apply load_rows.
  reflexivity.
Qed.

Lemma NewCollection_loads_witness :
  NewCollection demo_session "Person" empty_world =
    Returned None
      (mkWorld
         (objects empty_world ++ map Props_of two_persons)
         (nodes empty_world ++
          imap (fun i r =>
                  Node.mk (length (objects empty_world) + i)%nat
                    (ElementId_of r) [] [] [])
            two_persons)
         (Collection.mk
            (map VNode (seq (length (nodes empty_world)) (length two_persons)))
            "Person" [] [] [])
         (sent empty_world ++ [(TrimSpace (load_cypher "Person"), None)])).
Proof.
  apply (NewCollection_loads demo_session "Person" empty_world two_persons).
  reflexivity.
Defined.

(** X6: when the load query fails, at run time or while the rows are
    read, [NewCollection] returns the error and builds nothing: no node, no
    object, and the collection of the state is the one before. *)
Theorem NewCollection_fails (conn : session) (entity : string) (w : world)
    (e : string) :
  answer_error (conn (sent w) (TrimSpace (load_cypher entity)) None) = Some e ->
  NewCollection conn entity w =
    Returned (Some e)
      (mkWorld (objects w) (nodes w) (col w)
         (sent w ++ [(TrimSpace (load_cypher entity), None)])).
Proof.
  intros He. unfold NewCollection, Query, bind. fold (load_cypher entity).
  destruct (conn (sent w) (TrimSpace (load_cypher entity)) None)
    as [e' | records [e' |]]; simpl in He; inversion He; subst; reflexivity.
Qed.

Lemma NewCollection_fails_witness :
  NewCollection down_session "Person" persons =
    Returned (Some "down")
      (mkWorld (objects persons) (nodes persons) (col persons)
         (sent persons ++ [(TrimSpace (load_cypher "Person"), None)])).
Proof.
  apply (NewCollection_fails down_session "Person" persons "down").
  reflexivity.
Defined.

(** ** Commits with nothing to do *)

Lemma Commit_skips (conn : session) (w : world) :
  Collection.added (col w) = [] ->
  Collection.deleted (col w) = [] ->
  Collection.modified (col w) = [] ->
  collection_Commit conn w = Returned tt w.
Proof.
  intros Ha Hd Hm. unfold collection_Commit.
  assert (E1 : Commit_added conn w = Returned tt w)
    by (unfold Commit_added, load_col, bind, get, ret; rewrite Ha;
        reflexivity).
  assert (E2 : Commit_deleted conn w = Returned tt w)
    by (unfold Commit_deleted, load_col, bind, get, ret; rewrite Hd;
        reflexivity).
  assert (E3 : Commit_modified conn w = Returned tt w)
    by (unfold Commit_modified, load_col, bind, get, ret; rewrite Hm;
        reflexivity).
  erewrite bind_Returned by exact E1.
  erewrite bind_Returned by exact E2. exact E3.
Qed.

(** X7: a commit of a collection with nothing pending sends no call and
    returns the state as it is. *)
Theorem Commit_nothing_pending (conn : session) (w : world) :
  Collection.added (col w) = [] ->
  Collection.deleted (col w) = [] ->
  Collection.modified (col w) = [] ->
  collection_Commit conn w = Returned tt w.
Proof. apply Commit_skips. Qed.

(** X8: a commit that returned has emptied the three dirty lists of the
    collection, so that a second commit right after it sends no call and
    changes nothing. *)
Theorem Commit_twice (conn : session) (w w1 : world) :
  collection_Commit conn w = Returned tt w1 ->
  collection_Commit conn w1 = Returned tt w1.
Proof.
  unfold collection_Commit at 1. unfold bind.
  pose proof (phase_Commit_added conn w) as (_ & _ & _ & Ha).
  destruct (Commit_added conn w) as [[] wa | p wa]; [| discriminate].
  pose proof (phase_Commit_deleted conn wa) as (_ & _ & _ & Hd).
  destruct (Commit_deleted conn wa) as [[] wb | p wb]; [| discriminate].
  pose proof (phase_Commit_modified conn wb) as (_ & _ & _ & Hm).
  intros E. rewrite E in Hm. simpl in Ha, Hd, Hm.
  apply Commit_skips; rewrite Hm, Hd, Ha; reflexivity.
Qed.

Lemma Commit_nothing_pending_witness :
  collection_Commit down_session persons = Returned tt persons.
Proof.
  apply (Commit_nothing_pending down_session persons); reflexivity.
Defined.

Lemma Commit_twice_witness :
  collection_Commit demo_session
    (final (collection_Commit demo_session changed_person)) =
  Returned tt (final (collection_Commit demo_session changed_person)).
Proof.
  apply (Commit_twice demo_session changed_person).
  vm_compute. reflexivity.
Defined.

(** ** Adding and inserting rows *)

Lemma added_objects_cons (x : addr) (xs : list addr) (w : world) :
  added_objects xs (added_objects [x] w) = added_objects (x :: xs) w.
Proof.
  unfold added_objects.
  cbn [objects nodes col sent Collection.SliceList Collection.label
       Collection.added Collection.modified Collection.deleted length seq map].
  rewrite !length_app. cbn [length]. rewrite Nat.add_1_r, <- !app_assoc.
  reflexivity.
Qed.

Lemma Add_value_object (x : addr) (w : world) :
  Add_value (VObj x) w = Returned tt (added_objects [x] w).
Proof. reflexivity. Qed.

Lemma Add_objects_loop (xs : list addr) (w : world) :
  collection_Add (map VObj xs) w = Returned tt (added_objects xs w).
Proof.
  unfold collection_Add. revert w.
  induction xs as [| x xs IH]; intros w.
  - unfold added_objects. simpl. rewrite !app_nil_r.
    destruct w as [? ? [] ?]; reflexivity.
  - cbn [map for_each].
    erewrite bind_Returned by apply Add_value_object.
    rewrite IH. rewrite added_objects_cons. reflexivity.
Qed.

(** X9: [Add] of objects wraps each one in a new node with an empty
    identity and empty dirty lists, and appends the nodes to the rows and to
    [added] in the order of the arguments; it sends nothing. *)
Theorem collection_Add_objects (xs : list addr) (w : world) :
  collection_Add (map VObj xs) w = Returned tt (added_objects xs w).
Proof. apply Add_objects_loop. Qed.

(** X10: [Add] stops at the first argument that is not an object with a
    panic; the objects before it stay added, and the arguments after it are
    not looked at. *)
Theorem collection_Add_rejects (xs : list addr) (value : any)
    (rest : list any) (w : world) :
  is_Object value = false ->
  collection_Add (map VObj xs ++ value :: rest) w =
    Panicked (PanicMsg "Only object can be added to the collection.")
      (added_objects xs w).
Proof.
  intros Hv. unfold collection_Add. rewrite for_each_app.
  erewrite bind_Returned by apply Add_objects_loop.
  cbn [for_each]. unfold bind, Add_value. rewrite Hv. reflexivity.
Qed.

Lemma collection_Add_rejects_witness :
  collection_Add (map VObj [0%nat; 1%nat] ++ VStr "C" :: [VObj 0%nat]) persons =
    Panicked (PanicMsg "Only object can be added to the collection.")
      (added_objects [0%nat; 1%nat] persons).
Proof.
  apply (collection_Add_rejects [0%nat; 1%nat] (VStr "C") [VObj 0%nat] persons).
  reflexivity.
Defined.

(** X11: [Insert] registers its value in [added] before the rows take it:
    with an index outside the rows the call panics, the rows are the ones
    before, and the value stays in [added]. *)
Theorem collection_Insert_out_of_range (index : Z) (value : any) (w : world) :
  is_Object value = true ->
  index < 0 \/ anytype.SliceList.Count (Collection.SliceList (col w)) < index ->
  collection_Insert index value w =
    Panicked out_of_range
      (mkWorld (objects w) (nodes w)
         (Collection.mk (Collection.SliceList (col w))
            (Collection.label (col w)) (Collection.added (col w) ++ [value])
            (Collection.modified (col w)) (Collection.deleted (col w)))
         (sent w)).
Proof.
  intros Hv Hi. unfold collection_Insert. rewrite Hv. cbn [negb].
  unfold set_added, set_SliceList, load_col, store_col, from_option, bind,
    get, put, ret, raise, anytype.SliceList.Insert.
  cbn [col Collection.SliceList].
  destruct (Z.leb_spec 0 index); destruct (Z.leb_spec index
    (anytype.SliceList.Count (Collection.SliceList (col w))));
    try lia; reflexivity.
Qed.

Lemma collection_Insert_out_of_range_witness :
  collection_Insert 3 (VObj 0%nat) persons =
    Panicked out_of_range
      (mkWorld (objects persons) (nodes persons)
         (Collection.mk (Collection.SliceList (col persons))
            (Collection.label (col persons))
            (Collection.added (col persons) ++ [VObj 0%nat])
            (Collection.modified (col persons))
            (Collection.deleted (col persons)))
         (sent persons)).
Proof.
  apply (collection_Insert_out_of_range 3 (VObj 0%nat) persons).
  - reflexivity.
  - right. vm_compute. reflexivity.
Defined.

(** ** Removing rows *)

Lemma Delete_tracking_first (w : world) (p : addr) (n : Node.t) :
  first_row_untracked w p n ->
  Delete_tracking 0 w =
    Returned tt
      (mkWorld (objects w) (nodes w)
         (Collection.mk (Collection.SliceList (col w))
            (Collection.label (col w)) (Collection.added (col w))
            (Collection.modified (col w))
            (Collection.deleted (col w) ++ [VStr (Node.id n)]))
         (sent w)).
Proof.
  intros (Hrow & Hn & Ha & Hm).
  unfold Delete_tracking, set_added, set_modified, set_deleted, load_col,
    load_node, store_col, from_option, bind, get, put, ret, raise.
  assert (HGet : anytype.SliceList.Get (Collection.SliceList (col w)) 0 =
                 Some (VNode p)).
  { unfold anytype.SliceList.Get, anytype.SliceList.in_range,
      anytype.SliceList.Count.
    destruct (Collection.SliceList (col w)); [discriminate | exact Hrow]. }
  rewrite HGet. cbn [col]. rewrite Ha, Hm. cbn [nodes]. rewrite Hn.
  reflexivity.
Qed.

Lemma Delete_one_row (i : Z) (w : world) (p : addr) (n : Node.t) :
  first_row_untracked w p n ->
  0 <= i < anytype.SliceList.Count (Collection.SliceList (col w)) ->
  collection_Delete [i] w =
    Returned tt (row_deleted (Z.to_nat i) (Node.id n) w).
Proof.
  intros Hfirst Hi. unfold collection_Delete. cbn [length seq map for_each].
  erewrite bind_Returned by (erewrite bind_Returned
    by (apply (Delete_tracking_first w p n), Hfirst); reflexivity).
  unfold set_SliceList, load_col, store_col, from_option, bind, get, put, ret,
    raise, anytype.SliceList.Delete, anytype.SliceList.Delete1,
    anytype.SliceList.in_range.
  cbn [col Collection.SliceList].
  destruct (Z.leb_spec 0 i); [| lia].
  destruct (Z.ltb_spec i
              (anytype.SliceList.Count (Collection.SliceList (col w))));
    [| lia].
  reflexivity.
Qed.

(** X12: [Delete] with one index, on a collection whose first row is a
    node that is tracked neither as added nor as modified.  The row at the
    index leaves the rows; the identity queued in [deleted] is the one of
    the first row, for the loop variable of [range] is the position in the
    argument list. *)
Theorem collection_Delete_one (i : Z) (w : world) (p : addr) (n : Node.t) :
  first_row_untracked w p n ->
  0 <= i < anytype.SliceList.Count (Collection.SliceList (col w)) ->
  collection_Delete [i] w =
    Returned tt (row_deleted (Z.to_nat i) (Node.id n) w).
Proof. apply Delete_one_row. Qed.

Lemma first_row_Count (w : world) (p : addr) (n : Node.t) :
  first_row_untracked w p n ->
  0 < anytype.SliceList.Count (Collection.SliceList (col w)).
Proof.
  intros (Hrow & _). unfold anytype.SliceList.Count.
  destruct (Collection.SliceList (col w)); [discriminate | simpl; lia].
Qed.

(** X13: [Pop], on such a collection, removes the last row and queues the
    identity of the first row. *)
Theorem collection_Pop_last (w : world) (p : addr) (n : Node.t) :
  first_row_untracked w p n ->
  collection_Pop w =
    Returned tt
      (row_deleted (length (Collection.SliceList (col w)) - 1) (Node.id n) w).
Proof.
  intros Hfirst. pose proof (first_row_Count w p n Hfirst) as Hc.
  unfold collection_Pop, load_col, bind at 1 2, get, ret.
  rewrite (Delete_one_row _ w p n Hfirst) by lia.
  unfold anytype.SliceList.Count in *. do 2 f_equal. lia.
Qed.

(** X14: [Pop] on a collection with no row panics with an index out of
    range and changes nothing. *)
Theorem collection_Pop_empty (w : world) :
  Collection.SliceList (col w) = [] ->
  collection_Pop w = Panicked out_of_range w.
Proof.
  intros Hrows.
  unfold collection_Pop, collection_Delete, Delete_tracking, load_col,
    from_option, bind, get, ret, raise.
  cbn [length seq map for_each]. unfold bind, get, ret.
  rewrite Hrows. reflexivity.
Qed.

(** X15: [Replace], on such a collection and with an index inside the
    rows, keeps the number of rows and puts the value at the index, the
    other rows staying where they are; the value is registered in [added],
    and the identity queued is the one of the first row. *)
Theorem collection_Replace_row (i : Z) (value : any) (w : world) (p : addr)
    (n : Node.t) :
  first_row_untracked w p n ->
  0 <= i < anytype.SliceList.Count (Collection.SliceList (col w)) ->
  is_Object value = true ->
  collection_Replace i value w =
    Returned tt
      (mkWorld (objects w) (nodes w)
         (Collection.mk (<[Z.to_nat i := value]> (Collection.SliceList (col w)))
            (Collection.label (col w)) (Collection.added (col w) ++ [value])
            (Collection.modified (col w))
            (Collection.deleted (col w) ++ [VStr (Node.id n)]))
         (sent w)).
Proof.
  intros Hfirst Hi Hv. unfold collection_Replace.
  erewrite bind_Returned by (apply (Delete_one_row i w p n); assumption).
  unfold collection_Insert. rewrite Hv. cbn [negb].
  unfold set_added, set_SliceList, load_col, store_col, from_option, bind,
    get, put, ret, raise, anytype.SliceList.Insert, row_deleted,
    anytype.SliceList.Count in *.
  cbn [col Collection.SliceList Collection.label Collection.added
       Collection.modified Collection.deleted objects nodes sent].
  set (rows := Collection.SliceList (col w)) in *.
  assert (Hlen : (Z.to_nat i < length rows)%nat) by lia.
  assert (Hdel : length (delete (Z.to_nat i) rows) = (length rows - 1)%nat).
  { rewrite length_delete; [reflexivity |]. apply lookup_lt_is_Some_2, Hlen. }
  rewrite Hdel.
  destruct (Z.leb_spec 0 i); [| lia].
  destruct (Z.leb_spec i (Z.of_nat (length rows - 1))); [| lia].
  cbn [andb]. do 3 f_equal.
  rewrite delete_take_drop, insert_take_drop by exact Hlen.
  rewrite take_app_length' by (rewrite length_take; lia).
  rewrite drop_app_length' by (rewrite length_take; lia).
  reflexivity.
Qed.

Lemma Clear_loop (p : addr) (n : Node.t) (m : nat) :
  forall w,
    first_row_untracked w p n ->
    length (Collection.SliceList (col w)) = S m ->
    for_each (fun i => collection_Delete [i])
      (map Z.of_nat (rev (seq 0 (S m)))) w =
      Returned tt
        (mkWorld (objects w) (nodes w)
           (Collection.mk [] (Collection.label (col w))
              (Collection.added (col w)) (Collection.modified (col w))
              (Collection.deleted (col w)
               ++ replicate (S m) (VStr (Node.id n))))
           (sent w)).
Proof.
  induction m as [| m IH]; intros w Hfirst Hlen.
  - cbn [seq rev app map for_each].
    erewrite bind_Returned
      by (apply (Delete_one_row 0 w p n Hfirst);
          unfold anytype.SliceList.Count; lia).
    unfold row_deleted, ret. cbn [Z.to_nat].
    destruct (Collection.SliceList (col w)) as [| r [| r' rows]];
      try discriminate.
    reflexivity.
  - rewrite seq_S, rev_app_distr. cbn [rev app map for_each Nat.add].
    erewrite bind_Returned
      by (apply (Delete_one_row (Z.of_nat (S m)) w p n Hfirst);
          unfold anytype.SliceList.Count; lia).
    rewrite Nat2Z.id.
    assert (Hfirst' : first_row_untracked
                        (row_deleted (S m) (Node.id n) w) p n).
    { destruct Hfirst as (Hrow & Hn & Ha & Hm). repeat split; try assumption.
      unfold row_deleted. cbn [col Collection.SliceList].
      rewrite list_lookup_delete_lt by lia. exact Hrow. }
    rewrite (IH _ Hfirst').
    + unfold row_deleted.
      cbn [objects nodes col sent Collection.label Collection.added
           Collection.modified Collection.deleted].
      rewrite <- app_assoc. reflexivity.
    + unfold row_deleted. cbn [col Collection.SliceList].
      rewrite length_delete; [lia |]. apply lookup_lt_is_Some_2. lia.
Qed.

(** X16: [Clear], on such a collection, removes every row and queues the
    identity of the first row once for each row. *)
Theorem collection_Clear_rows (w : world) (p : addr) (n : Node.t) :
  first_row_untracked w p n ->
  collection_Clear w =
    Returned tt
      (mkWorld (objects w) (nodes w)
         (Collection.mk [] (Collection.label (col w))
            (Collection.added (col w)) (Collection.modified (col w))
            (Collection.deleted (col w)
             ++ replicate (length (Collection.SliceList (col w)))
                  (VStr (Node.id n))))
         (sent w)).
Proof.
  intros Hfirst. pose proof (first_row_Count w p n Hfirst) as Hc.
  unfold anytype.SliceList.Count in Hc.
  destruct (length (Collection.SliceList (col w))) as [| m] eqn:Hlen; [lia |].
  unfold collection_Clear, load_col. unfold bind at 1 2, get, ret.
  rewrite Hlen.
  erewrite bind_Returned by (apply (Clear_loop p n m w Hfirst Hlen)).
  reflexivity.
Qed.

(** ** The dirty lists of a node under [Set] and [Unset] *)

Lemma any_eqb_eq (a b : any) : any_eqb a b = true <-> a = b.
Proof.
  split; [| intros ->; apply any_eqb_refl].
  destruct a, b; simpl; try discriminate; intros H; f_equal.
  - apply Bool.eqb_prop, H.
  - apply Z.eqb_eq, H.
  - apply String.eqb_eq, H.
  - apply Nat.eqb_eq, H.
  - apply Nat.eqb_eq, H.
Qed.

Lemma Contains_In (l : list any) (v : any) :
  anytype.SliceList.Contains l v = true <-> List.In v l.
Proof.
  unfold anytype.SliceList.Contains. rewrite existsb_exists. split.
  - intros (x & Hx & E). apply any_eqb_eq in E. subst. exact Hx.
  - intros H. exists v. split; [exact H | apply any_eqb_refl].
Qed.

Lemma Contains_not_In (l : list any) (v : any) :
  anytype.SliceList.Contains l v = false <-> ~ List.In v l.
Proof.
  rewrite <- Contains_In. destruct (anytype.SliceList.Contains l v);
    split; congruence.
Qed.

Lemma IndexOf_missing (l : list any) (v : any) :
  anytype.SliceList.Contains l v = false -> anytype.SliceList.IndexOf l v = -1.
Proof.
  unfold anytype.SliceList.Contains.
  induction l as [| x l IH]; simpl; [reflexivity |].
  intros H. apply orb_false_iff in H as [Hx Hl].
  rewrite any_eqb_sym, Hx, (IH Hl). reflexivity.
Qed.

Lemma IndexOf_found (l : list any) (v : any) :
  anytype.SliceList.Contains l v = true ->
  0 <= anytype.SliceList.IndexOf l v < Z.of_nat (length l).
Proof.
  unfold anytype.SliceList.Contains.
  induction l as [| x l IH]; simpl; [discriminate |].
  rewrite (any_eqb_sym v x). destruct (any_eqb x v); simpl; [lia |].
  intros H. specialize (IH H).
  destruct (Z.ltb_spec (anytype.SliceList.IndexOf l v) 0); lia.
Qed.

Lemma Delete_found (l : list any) (v : any) :
  anytype.SliceList.Contains l v = true ->
  anytype.SliceList.Delete l [anytype.SliceList.IndexOf l v] =
    Some (delete (Z.to_nat (anytype.SliceList.IndexOf l v)) l).
Proof.
  intros H. pose proof (IndexOf_found l v H) as Hi.
  unfold anytype.SliceList.Delete, anytype.SliceList.Delete1,
    anytype.SliceList.in_range, anytype.SliceList.Count.
  destruct (Z.leb_spec 0 (anytype.SliceList.IndexOf l v)); [| lia].
  destruct (Z.ltb_spec (anytype.SliceList.IndexOf l v) (Z.of_nat (length l)));
    [reflexivity | lia].
Qed.

Lemma In_delete {A} (i : nat) (l : list A) (x : A) :
  List.In x (delete i l) -> List.In x l.
Proof.
  revert i. induction l as [| y l IH]; intros [| i]; simpl; auto.
  intros [-> | H]; eauto.
Qed.

Lemma NoDup_delete {A} (i : nat) (l : list A) :
  List.NoDup l -> List.NoDup (delete i l).
Proof.
  revert i. induction l as [| y l IH]; intros [| i] H; simpl; auto.
  - inversion H; assumption.
  - inversion H; subst. constructor; [| apply IH; assumption].
    intros Hin. apply In_delete in Hin. contradiction.
Qed.

Lemma NoDup_snoc {A} (l : list A) (x : A) :
  List.NoDup l -> ~ List.In x l -> List.NoDup (l ++ [x]).
Proof.
  induction l as [| y l IH]; simpl; intros H Hx.
  - constructor; [intros [] | constructor].
  - inversion H; subst. constructor.
    + rewrite in_app_iff. simpl. intuition congruence.
    + apply IH; [assumption | tauto].
Qed.

Lemma KeyExists_set1 (o : fields) (key k : string) (v : any) :
  anytype.MapObject.KeyExists o k = true ->
  anytype.MapObject.KeyExists (anytype.MapObject.set1 o key v) k = true.
Proof.
  unfold anytype.MapObject.KeyExists.
  induction o as [| [k' x] o IH]; simpl; [discriminate |].
  destruct (String.eqb_spec k' key) as [-> | Hne]; simpl.
  - destruct (String.eqb key k); auto.
  - destruct (String.eqb k' k); auto.
Qed.

Lemma KeyExists_set_pairs (values : list any) :
  forall (o : fields) (k : string),
    anytype.MapObject.KeyExists o k = true ->
    anytype.MapObject.KeyExists
      (fst (anytype.MapObject.set_pairs o values)) k = true.
Proof.
  induction values as [values IH] using (induction_ltof1 _ (@length any)).
  unfold ltof in IH. intros o k Hk.
  destruct values as [| x [| y rest]]; [exact Hk | destruct x; exact Hk |].
  destruct x; try exact Hk.
  cbn [anytype.MapObject.set_pairs].
  apply (IH rest); [simpl; lia | apply KeyExists_set1, Hk].
Qed.

Lemma KeyExists_Set (o : fields) (values : list any) (k : string) :
  anytype.MapObject.KeyExists o k = true ->
  anytype.MapObject.KeyExists (fst (anytype.MapObject.Set_ o values)) k = true.
Proof.
  intros Hk. unfold anytype.MapObject.Set_.
  destruct (Nat.even (length values));
    [apply KeyExists_set_pairs, Hk | exact Hk].
Qed.

Lemma KeyExists_Unset (o : fields) (keys : list string) (k : string) :
  anytype.MapObject.KeyExists o k = true -> ~ List.In k keys ->
  anytype.MapObject.KeyExists (anytype.MapObject.Unset o keys) k = true.
Proof.
  unfold anytype.MapObject.KeyExists, anytype.MapObject.Unset.
  intros Hk Hnot. induction o as [| [k' x] o IH]; simpl in *; [discriminate |].
  destruct (String.eqb_spec k' k) as [-> | Hne].
  - assert (existsb (String.eqb k) keys = false) as Hex.
    { apply not_true_is_false. intros Hex. apply existsb_exists in Hex
        as (y & Hy & E). apply String.eqb_eq in E. subst. contradiction. }
    unfold filter; simpl. rewrite Hex. simpl. rewrite String.eqb_refl.
    reflexivity.
  - unfold filter; simpl.
    destruct (negb (existsb (String.eqb k') keys)); simpl.
    + destruct (String.eqb_spec k' k); [contradiction | apply IH, Hk].
    + apply IH, Hk.
Qed.

Lemma inv_bind {A B} (I : world -> Prop) (m : M A) (k : A -> M B) (w : world) :
  I (final (m w)) ->
  (forall a w1, m w = Returned a w1 -> I w1 -> I (final (k a w1))) ->
  I (final (bind m k w)).
Proof.
  unfold bind. destruct (m w) as [a w1 | p w1]; simpl; intros H Hk; auto.
Qed.

Lemma node_ok_store_node (w : world) (ego : addr) (n n' : Node.t) (o : fields) :
  nodes w !! ego = Some n -> objects w !! Node.MapObject n = Some o ->
  Node.MapObject n' = Node.MapObject n -> keys_ok n' o ->
  node_ok (mkWorld (objects w) (<[ego := n']> (nodes w)) (col w) (sent w)) ego.
Proof.
  intros Hn Ho Hmap Hok. exists n', o. cbn [nodes objects].
  rewrite list_lookup_insert_eq by (eapply lookup_lt_Some, Hn).
  rewrite Hmap. auto.
Qed.

Lemma Set_keys_first (ego : addr) (key : string) (y : any) (rest : list any)
    (w : world) (n : Node.t) (o : fields) :
  nodes w !! ego = Some n -> objects w !! Node.MapObject n = Some o ->
  Set_keys ego (VStr key :: y :: rest) w =
  Set_keys ego rest
    (if anytype.SliceList.Contains (Node.added n) (VStr key) then w
     else if anytype.MapObject.KeyExists o key then
       mkWorld (objects w)
         (<[ego := Node.mk (Node.MapObject n) (Node.id n) (Node.added n)
                     (Node.modified n ++ [VStr key]) (Node.deleted n)]>
            (nodes w))
         (col w) (sent w)
     else
       mkWorld (objects w)
         (<[ego := Node.mk (Node.MapObject n) (Node.id n)
                     (Node.added n ++ [VStr key]) (Node.modified n)
                     (Node.deleted n)]>
            (nodes w))
         (col w) (sent w)).
Proof.
  intros Hn Ho. cbn [Set_keys].
  unfold load_node, load_object, store_node, bind, get, put, ret, raise.
  rewrite Hn.
  destruct (anytype.SliceList.Contains (Node.added n) (VStr key));
    cbn [negb]; [reflexivity |].
  rewrite Ho. destruct (anytype.MapObject.KeyExists o key); reflexivity.
Qed.

Lemma Set_keys_ok (ego : addr) (values : list any) :
  forall w, node_ok w ego -> node_ok (final (Set_keys ego values w)) ego.
Proof.
  induction values as [values IH] using (induction_ltof1 _ (@length any)).
  unfold ltof in IH. intros w Hw.
  destruct values as [| x [| y rest]];
    [exact Hw | destruct x; exact Hw |].
  destruct x; try exact Hw.
  destruct Hw as (n & o & Hn & Ho & Hnd & Hdisj & Hex).
  rewrite (Set_keys_first ego s y rest w n o Hn Ho).
  apply (IH rest); [simpl; lia |].
  destruct (anytype.SliceList.Contains (Node.added n) (VStr s)) eqn:Ha.
  - exists n, o. repeat split; assumption.
  - apply Contains_not_In in Ha.
    destruct (anytype.MapObject.KeyExists o s) eqn:Hk.
    + eapply node_ok_store_node; eauto. repeat split; cbn; auto.
      * intros v Hv Hin. apply in_app_iff in Hin as [Hin | [<- | []]].
        -- exact (Hdisj v Hv Hin).
        -- contradiction.
      * intros k Hin. apply in_app_iff in Hin as [Hin | [E | []]].
        -- exact (Hex k Hin).
        -- inversion E; subst. exact Hk.
    + eapply node_ok_store_node; eauto. repeat split; cbn; auto.
      * apply NoDup_snoc; assumption.
      * intros v Hv Hin. apply in_app_iff in Hv as [Hv | [<- | []]].
        -- exact (Hdisj v Hv Hin).
        -- apply Hex in Hin. congruence.
Qed.

Lemma register_modified_ok (ego ego' : addr) (w : world) :
  node_ok w ego' -> node_ok (final (register_modified ego w)) ego'.
Proof.
  intros Hw. unfold register_modified, load_col, store_col, bind, get, put,
    ret.
  destruct (negb _); exact Hw.
Qed.

Lemma MapObject_Set_ok (ego : addr) (values : list any) (w : world) :
  node_ok w ego -> node_ok (final (MapObject_Set ego values w)) ego.
Proof.
  intros (n & o & Hn & Ho & Hnd & Hdisj & Hex).
  unfold MapObject_Set, load_node, load_object, store_object, bind, get, put,
    ret, raise.
  rewrite Hn, Ho.
  pose proof (fun k => KeyExists_Set o values k) as Hkeep.
  destruct (anytype.MapObject.Set_ o values) as [o' [[] |]]; cbn [fst] in Hkeep;
    cbn [final];
    exists n, o'; cbn [nodes objects];
    (split; [exact Hn |]);
    (split; [apply list_lookup_insert_eq; eapply lookup_lt_Some, Ho |]);
    repeat split; auto.
Qed.

(** X17: [Set] keeps [keys_ok], whatever its arguments and also when it
    panics: no key comes twice in [added], no key is both in [added] and in
    [modified], and every key in [modified] is a field of the object. *)
Theorem node_Set_keeps_keys_ok (ego : addr) (values : list any) (w : world) :
  node_ok w ego -> node_ok (final (node_Set ego values w)) ego.
Proof.
  intros Hw. unfold node_Set.
  apply (inv_bind (fun w => node_ok w ego)).
  - destruct (_ =? 0); [apply Set_keys_ok, Hw | exact Hw].
  - intros _ w1 _ Hw1. apply (inv_bind (fun w => node_ok w ego)).
    + apply register_modified_ok, Hw1.
    + intros _ w2 _ Hw2. apply MapObject_Set_ok, Hw2.
Qed.

Lemma Delete_missing (l : list any) :
  anytype.SliceList.Delete l [-1] = None.
Proof. reflexivity. Qed.

(** What one round of the loop of [node.Unset] leaves. *)
Lemma Unset_key_ok (ego : addr) (key : string) (w : world) (n : Node.t)
    (o : fields) :
  nodes w !! ego = Some n -> objects w !! Node.MapObject n = Some o ->
  keys_ok n o ->
  exists n',
    nodes (final (Unset_key ego key w)) !! ego = Some n' /\
    Node.MapObject n' = Node.MapObject n /\
    objects (final (Unset_key ego key w)) = objects w /\
    keys_ok n' o /\
    Node.modified n' = Node.modified n /\
    (returned (Unset_key ego key w) = true ->
     ~ List.In (VStr key) (Node.modified n)).
Proof.
  intros Hn Ho (Hnd & Hdisj & Hex).
  assert (Hlt : (ego < length (nodes w))%nat) by (eapply lookup_lt_Some, Hn).
  unfold Unset_key, load_node, store_node, from_option, bind, get, put, ret,
    raise.
  rewrite Hn.
  destruct (anytype.SliceList.Contains (Node.added n) (VStr key)) eqn:Ha.
  - rewrite (Delete_found _ _ Ha). cbn [final nodes objects returned].
    rewrite list_lookup_insert_eq by exact Hlt.
    eexists. split; [reflexivity |]. cbn.
    repeat split; auto.
    + apply NoDup_delete, Hnd.
    + intros v Hv. apply In_delete in Hv. apply Hdisj, Hv.
    + intros _. apply Hdisj. apply Contains_In, Ha.
  - destruct (anytype.SliceList.Contains (Node.modified n) (VStr key)) eqn:Hm.
    + rewrite (IndexOf_missing _ _ Ha), Delete_missing.
      cbn [final returned]. exists n. repeat split; auto. discriminate.
    + cbn [final nodes objects returned].
      rewrite list_lookup_insert_eq by exact Hlt.
      eexists. split; [reflexivity |]. cbn.
      repeat split; auto.
      intros _. apply Contains_not_In, Hm.
Qed.

Lemma Unset_loop_ok (ego : addr) (keys : list string) :
  forall (w : world) (n : Node.t) (o : fields),
    nodes w !! ego = Some n -> objects w !! Node.MapObject n = Some o ->
    keys_ok n o ->
    exists n',
      nodes (final (for_each (Unset_key ego) keys w)) !! ego = Some n' /\
      Node.MapObject n' = Node.MapObject n /\
      objects (final (for_each (Unset_key ego) keys w)) = objects w /\
      keys_ok n' o /\
      Node.modified n' = Node.modified n /\
      (returned (for_each (Unset_key ego) keys w) = true ->
       forall k, List.In k keys -> ~ List.In (VStr k) (Node.modified n)).
Proof.
  induction keys as [| key keys IH]; intros w n o Hn Ho Hok.
  - exists n. cbn. repeat split; auto; apply Hok.
  - cbn [for_each]. unfold bind.
    destruct (Unset_key_ok ego key w n o Hn Ho Hok)
      as (n1 & Hn1 & Hmap1 & Hobj1 & Hok1 & Hmod1 & Hret1).
    destruct (Unset_key ego key w) as [[] w1 | p w1]; cbn [final] in *.
    + rewrite <- Hmap1, <- Hobj1 in Ho.
      destruct (IH w1 n1 o Hn1 Ho Hok1)
        as (n2 & Hn2 & Hmap2 & Hobj2 & Hok2 & Hmod2 & Hret2).
      exists n2. repeat split; try congruence; try apply Hok2.
      intros Hr k [<- | Hk].
      * apply Hret1. reflexivity.
      * rewrite <- Hmod1. apply (Hret2 Hr k Hk).
    + exists n1. repeat split; auto; try apply Hok1. discriminate.
Qed.

(** X18: [Unset] keeps [keys_ok], whatever its keys and also when it
    panics. *)
Theorem node_Unset_keeps_keys_ok (ego : addr) (keys : list string)
    (w : world) :
  node_ok w ego -> node_ok (final (node_Unset ego keys w)) ego.
Proof.
  intros (n & o & Hn & Ho & Hok). unfold node_Unset.
  destruct (Unset_loop_ok ego keys w n o Hn Ho Hok)
    as (n1 & Hn1 & Hmap1 & Hobj1 & Hok1 & Hmod1 & Hret1).
  unfold bind at 1.
  destruct (for_each (Unset_key ego) keys w) as [[] w1 | p w1];
    cbn [final returned] in *.
  2:{ exists n1, o. rewrite Hmap1, Hobj1. auto. }
  unfold register_modified, load_col, store_col, load_node, load_object,
    store_object, bind, get, put, ret, raise.
  assert (Ho1 : objects w1 !! Node.MapObject n1 = Some o)
    by (rewrite Hmap1, Hobj1; exact Ho).
  assert (Hfinal : node_ok
            (mkWorld (<[Node.MapObject n1 := anytype.MapObject.Unset o keys]>
                        (objects w1)) (nodes w1) (col w1) (sent w1)) ego).
  { exists n1, (anytype.MapObject.Unset o keys). cbn [nodes objects].
    split; [exact Hn1 |].
    split; [apply list_lookup_insert_eq; eapply lookup_lt_Some, Ho1 |].
    destruct Hok1 as (Hnd & Hdisj & Hex). repeat split; auto.
    intros k Hk. apply KeyExists_Unset; [apply Hex, Hk |].
    intros Hin. rewrite Hmod1 in Hk. exact (Hret1 eq_refl k Hin Hk). }
  destruct (negb _); cbn [nodes objects final]; rewrite Hn1;
    cbn [nodes objects final]; rewrite Ho1; exact Hfinal.
Qed.

(** ** What [Set] and [Unset] record *)

Lemma register_modified_Returned (ego : addr) (w : world) :
  register_modified ego w =
    Returned tt
      (mkWorld (objects w) (nodes w) (registered ego (col w)) (sent w)).
Proof.
  unfold register_modified, registered, load_col, store_col, bind, get, put,
    ret.
  destruct (anytype.SliceList.Contains (Collection.modified (col w))
              (VNode ego)); cbn [negb]; [| reflexivity].
  destruct w as [? ? [] ?]; reflexivity.
Qed.

Lemma pairs_values_even (pairs : list (string * any)) :
  Nat.even (length (pairs_values pairs)) = true.
Proof. induction pairs as [| kv pairs IH]; [reflexivity | exact IH]. Qed.

Lemma pairs_values_mod (pairs : list (string * any)) :
  (Z.of_nat (length (pairs_values pairs)) mod 2 =? 0) = true.
Proof.
  apply Z.eqb_eq.
  assert (length (pairs_values pairs) = (2 * length pairs)%nat) as ->.
  { induction pairs as [| kv pairs IH]; simpl in *; lia. }
  rewrite Nat2Z.inj_mul, Z.mul_comm. apply Z.mod_mul. lia.
Qed.

Lemma Set_pairs_values (pairs : list (string * any)) :
  forall o, anytype.MapObject.Set_ o (pairs_values pairs) =
            (write_pairs o pairs, None).
Proof.
  unfold anytype.MapObject.Set_. rewrite pairs_values_even.
  induction pairs as [| kv pairs IH]; intros o; [reflexivity |].
  cbn [pairs_values flat_map app anytype.MapObject.set_pairs write_pairs
       fold_left].
  apply IH.
Qed.

(** The loop of [Set] on well-formed pairs: it returns, it writes the node
    at [ego] only, and there only [added] and [modified], which grow. *)
Lemma Set_keys_pairs (ego : addr) (pairs : list (string * any)) :
  forall (w : world) (n : Node.t) (o : fields),
    nodes w !! ego = Some n -> objects w !! Node.MapObject n = Some o ->
    exists n',
      Set_keys ego (pairs_values pairs) w =
        Returned tt
          (mkWorld (objects w) (<[ego := n']> (nodes w)) (col w) (sent w)) /\
      Node.MapObject n' = Node.MapObject n /\ Node.id n' = Node.id n /\
      Node.deleted n' = Node.deleted n /\
      (forall v, List.In v (Node.added n) -> List.In v (Node.added n')) /\
      (forall v, List.In v (Node.modified n) -> List.In v (Node.modified n')) /\
      (forall kv, List.In kv pairs ->
         List.In (VStr (fst kv)) (Node.added n')
         \/ List.In (VStr (fst kv)) (Node.modified n')).
Proof.
  induction pairs as [| [key y] pairs IH]; intros w n o Hn Ho.
  - exists n. split.
    + cbn. rewrite list_insert_id by exact Hn. destruct w; reflexivity.
    + repeat split; auto. intros kv [].
  - assert (Hlt : (ego < length (nodes w))%nat) by (eapply lookup_lt_Some, Hn).
    cbn [pairs_values flat_map app fst snd].
    rewrite (Set_keys_first ego key y _ w n o Hn Ho).
    fold (pairs_values pairs).
    destruct (anytype.SliceList.Contains (Node.added n) (VStr key)) eqn:Ha.
    + destruct (IH w n o Hn Ho)
        as (n' & E & Hmap & Hid & Hdel & Hadd & Hmod & Hall).
      exists n'. repeat split; auto.
      intros kv [<- | Hkv]; [| apply Hall, Hkv].
      left. apply Hadd. apply Contains_In, Ha.
    + destruct (anytype.MapObject.KeyExists o key) eqn:Hk.
      * destruct (IH (mkWorld (objects w)
                        (<[ego := Node.mk (Node.MapObject n) (Node.id n)
                                    (Node.added n)
                                    (Node.modified n ++ [VStr key])
                                    (Node.deleted n)]> (nodes w))
                        (col w) (sent w)) _ o
                    (list_lookup_insert_eq _ _ _ Hlt) Ho)
          as (n' & E & Hmap & Hid & Hdel & Hadd & Hmod & Hall).
        cbn [objects nodes col sent Node.MapObject Node.id Node.added
             Node.modified Node.deleted] in *.
        rewrite list_insert_insert_eq in E.
        exists n'. repeat split; auto.
        -- intros v Hv. apply Hmod. apply in_app_iff. left. exact Hv.
        -- intros kv [<- | Hkv]; [| apply Hall, Hkv].
           right. apply Hmod. apply in_app_iff. right. left. reflexivity.
      * destruct (IH (mkWorld (objects w)
                        (<[ego := Node.mk (Node.MapObject n) (Node.id n)
                                    (Node.added n ++ [VStr key])
                                    (Node.modified n)
                                    (Node.deleted n)]> (nodes w))
                        (col w) (sent w)) _ o
                    (list_lookup_insert_eq _ _ _ Hlt) Ho)
          as (n' & E & Hmap & Hid & Hdel & Hadd & Hmod & Hall).
        cbn [objects nodes col sent Node.MapObject Node.id Node.added
             Node.modified Node.deleted] in *.
        rewrite list_insert_insert_eq in E.
        exists n'. repeat split; auto.
        -- intros v Hv. apply Hadd. apply in_app_iff. left. exact Hv.
        -- intros kv [<- | Hkv]; [| apply Hall, Hkv].
           left. apply Hadd. apply in_app_iff. right. left. reflexivity.
Qed.

(** X19: [Set] on key and value pairs whose keys are strings returns; every
    key is then in [added] or in [modified], the pairs are written to the
    object one after the other, the node is registered in the collection's
    [modified], and the identity and [deleted] are untouched. *)
Theorem node_Set_tracks_keys (ego : addr) (pairs : list (string * any))
    (w : world) (n : Node.t) (o : fields) :
  node_at w ego = Some n ->
  objects w !! Node.MapObject n = Some o ->
  exists n',
    node_Set ego (pairs_values pairs) w =
      Returned tt
        (mkWorld (<[Node.MapObject n := write_pairs o pairs]> (objects w))
           (<[ego := n']> (nodes w))
           (registered ego (col w)) (sent w)) /\
    Node.MapObject n' = Node.MapObject n /\ Node.id n' = Node.id n /\
    Node.deleted n' = Node.deleted n /\
    (forall kv, List.In kv pairs ->
       List.In (VStr (fst kv)) (Node.added n')
       \/ List.In (VStr (fst kv)) (Node.modified n')).
Proof.
  intros Hn Ho. unfold node_at in Hn.
  destruct (Set_keys_pairs ego pairs w n o Hn Ho)
    as (n' & E & Hmap & Hid & Hdel & _ & _ & Hall).
  exists n'. repeat split; auto.
  unfold node_Set. rewrite pairs_values_mod.
  erewrite bind_Returned by exact E.
  erewrite bind_Returned by apply register_modified_Returned.
  unfold MapObject_Set, load_node, load_object, store_object, bind, get, put,
    ret, raise.
  cbn [nodes objects col sent].
  rewrite list_lookup_insert_eq by (eapply lookup_lt_Some, Hn).
  cbn [nodes objects col sent]. rewrite Hmap, Ho, Set_pairs_values.
  reflexivity.
Qed.

Lemma Unset_loop_untracked (ego : addr) (keys : list string) :
  forall (w : world) (n : Node.t),
    nodes w !! ego = Some n ->
    (forall k, List.In k keys ->
       ~ List.In (VStr k) (Node.added n)
       /\ ~ List.In (VStr k) (Node.modified n)) ->
    for_each (Unset_key ego) keys w =
      Returned tt
        (mkWorld (objects w)
           (<[ego := Node.mk (Node.MapObject n) (Node.id n) (Node.added n)
                       (Node.modified n)
                       (Node.deleted n ++ map VStr keys)]> (nodes w))
           (col w) (sent w)).
Proof.
  induction keys as [| key keys IH]; intros w n Hn Hkeys.
  - cbn [for_each map]. rewrite app_nil_r.
    replace (Node.mk (Node.MapObject n) (Node.id n) (Node.added n)
               (Node.modified n) (Node.deleted n)) with n
      by (destruct n; reflexivity).
    rewrite list_insert_id by exact Hn. destruct w; reflexivity.
  - assert (Hlt : (ego < length (nodes w))%nat) by (eapply lookup_lt_Some, Hn).
    destruct (Hkeys key (or_introl eq_refl)) as [Ha Hm].
    apply Contains_not_In in Ha, Hm.
    assert (E : Unset_key ego key w =
                Returned tt
                  (mkWorld (objects w)
                     (<[ego := Node.mk (Node.MapObject n) (Node.id n)
                                 (Node.added n) (Node.modified n)
                                 (Node.deleted n ++ [VStr key])]> (nodes w))
                     (col w) (sent w))).
    { unfold Unset_key, load_node, store_node, bind, get, put, ret.
      rewrite Hn, Ha, Hm. reflexivity. }
    cbn [for_each map]. erewrite bind_Returned by exact E.
    set (n1 := Node.mk (Node.MapObject n) (Node.id n) (Node.added n)
                 (Node.modified n) (Node.deleted n ++ [VStr key])).
    rewrite (IH (mkWorld (objects w) (<[ego := n1]> (nodes w)) (col w)
                   (sent w)) n1).
    + cbn [objects nodes col sent Node.MapObject Node.id Node.added
           Node.modified Node.deleted n1].
      rewrite list_insert_insert_eq, <- app_assoc. reflexivity.
    + apply list_lookup_insert_eq, Hlt.
    + intros k Hk. apply Hkeys. right. exact Hk.
Qed.

(** X20: [Unset] of keys that are neither in [added] nor in [modified]
    appends them to [deleted] in order, whether or not the object has the
    field or the key is queued already, removes the fields from the object
    and registers the node in the collection's [modified]. *)
Theorem node_Unset_queues_keys (ego : addr) (keys : list string) (w : world)
    (n : Node.t) (o : fields) :
  node_at w ego = Some n ->
  objects w !! Node.MapObject n = Some o ->
  (forall k, List.In k keys ->
     ~ List.In (VStr k) (Node.added n)
     /\ ~ List.In (VStr k) (Node.modified n)) ->
  node_Unset ego keys w =
    Returned tt
      (mkWorld
         (<[Node.MapObject n := anytype.MapObject.Unset o keys]> (objects w))
         (<[ego := Node.mk (Node.MapObject n) (Node.id n) (Node.added n)
                     (Node.modified n)
                     (Node.deleted n ++ map VStr keys)]> (nodes w))
         (registered ego (col w)) (sent w)).
Proof.
  intros Hn Ho Hkeys. unfold node_at in Hn. unfold node_Unset.
  erewrite bind_Returned by (apply Unset_loop_untracked; eassumption).
  erewrite bind_Returned by apply register_modified_Returned.
  unfold load_node, load_object, store_object, bind, get, put, ret, raise.
  cbn [nodes objects col sent].
  rewrite list_lookup_insert_eq by (eapply lookup_lt_Some, Hn).
  cbn [Node.MapObject nodes objects col sent]. rewrite Ho. reflexivity.
Qed.

(** ** The properties on the persons *)

Lemma persons_first_row : first_row_untracked persons 0%nat first_person.
Proof. repeat split. Qed.

Lemma persons_node_ok : node_ok persons 0%nat.
Proof.
  exists first_person, [("name", VStr "A"); ("age", VInt 30)].
  repeat split; try constructor; intros ? [].
Qed.

Lemma collection_Delete_one_witness :
  collection_Delete [1] persons =
    Returned tt (row_deleted (Z.to_nat 1) (Node.id first_person) persons).
Proof.
  apply (collection_Delete_one 1 persons 0%nat first_person).
  - exact persons_first_row.
  - vm_compute. split; [discriminate | reflexivity].
Defined.

Lemma collection_Pop_last_witness :
  collection_Pop persons =
    Returned tt
      (row_deleted (length (Collection.SliceList (col persons)) - 1)
         (Node.id first_person) persons).
Proof.
  apply (collection_Pop_last persons 0%nat first_person).
  exact persons_first_row.
Defined.

Lemma collection_Pop_empty_witness :
  collection_Pop empty_world = Panicked out_of_range empty_world.
Proof. apply (collection_Pop_empty empty_world). reflexivity. Defined.

Lemma collection_Replace_row_witness :
  collection_Replace 1 (VObj 0%nat) persons =
    Returned tt
      (mkWorld (objects persons) (nodes persons)
         (Collection.mk
            (<[Z.to_nat 1 := VObj 0%nat]> (Collection.SliceList (col persons)))
            (Collection.label (col persons))
            (Collection.added (col persons) ++ [VObj 0%nat])
            (Collection.modified (col persons))
            (Collection.deleted (col persons)
             ++ [VStr (Node.id first_person)]))
         (sent persons)).
Proof.
  apply (collection_Replace_row 1 (VObj 0%nat) persons 0%nat first_person).
  - exact persons_first_row.
  - vm_compute. split; [discriminate | reflexivity].
  - reflexivity.
Defined.

Lemma collection_Clear_rows_witness :
  collection_Clear persons =
    Returned tt
      (mkWorld (objects persons) (nodes persons)
         (Collection.mk [] (Collection.label (col persons))
            (Collection.added (col persons))
            (Collection.modified (col persons))
            (Collection.deleted (col persons)
             ++ replicate (length (Collection.SliceList (col persons)))
                  (VStr (Node.id first_person))))
         (sent persons)).
Proof.
  apply (collection_Clear_rows persons 0%nat first_person).
  exact persons_first_row.
Defined.

Lemma node_Set_keeps_keys_ok_witness :
  node_ok
    (final (node_Set 0%nat [VStr "name"; VStr "Z"; VStr "city"; VStr "P"]
              persons))
    0%nat.
Proof.
  apply (node_Set_keeps_keys_ok 0%nat
           [VStr "name"; VStr "Z"; VStr "city"; VStr "P"] persons).
  exact persons_node_ok.
Defined.

Lemma node_Unset_keeps_keys_ok_witness :
  node_ok (final (node_Unset 0%nat ["age"] persons)) 0%nat.
Proof.
  apply (node_Unset_keeps_keys_ok 0%nat ["age"] persons).
  exact persons_node_ok.
Defined.

Lemma node_Set_tracks_keys_witness :
  exists n',
    node_Set 0%nat
      (pairs_values [("name", VStr "Z"); ("city", VStr "P")]) persons =
      Returned tt
        (mkWorld
           (<[Node.MapObject first_person :=
                write_pairs [("name", VStr "A"); ("age", VInt 30)]
                  [("name", VStr "Z"); ("city", VStr "P")]]>
              (objects persons))
           (<[0%nat := n']> (nodes persons))
           (registered 0%nat (col persons)) (sent persons)) /\
    Node.MapObject n' = Node.MapObject first_person /\
    Node.id n' = Node.id first_person /\
    Node.deleted n' = Node.deleted first_person /\
    (forall kv, List.In kv [("name", VStr "Z"); ("city", VStr "P")] ->
       List.In (VStr (fst kv)) (Node.added n')
       \/ List.In (VStr (fst kv)) (Node.modified n')).
Proof.
  apply (node_Set_tracks_keys 0%nat [("name", VStr "Z"); ("city", VStr "P")]
           persons first_person [("name", VStr "A"); ("age", VInt 30)]);
    reflexivity.
Defined.

Lemma node_Unset_queues_keys_witness :
  node_Unset 0%nat ["age"; "nick"] persons =
    Returned tt
      (mkWorld
         (<[Node.MapObject first_person :=
              anytype.MapObject.Unset [("name", VStr "A"); ("age", VInt 30)]
                ["age"; "nick"]]> (objects persons))
         (<[0%nat := Node.mk (Node.MapObject first_person)
                       (Node.id first_person) (Node.added first_person)
                       (Node.modified first_person)
                       (Node.deleted first_person
                        ++ map VStr ["age"; "nick"])]> (nodes persons))
         (registered 0%nat (col persons)) (sent persons)).
Proof.
  apply (node_Unset_queues_keys 0%nat ["age"; "nick"] persons first_person
           [("name", VStr "A"); ("age", VInt 30)]).
  - reflexivity.
  - reflexivity.
  - intros k _. split; intros [].
Defined.

Lemma Set_then_Unset_new_key_witness :
  exists w',
    (node_Set 0%nat [VStr "city"; VStr "P"] >> node_Unset 0%nat ["city"])
      persons = Returned tt w' /\
    node_at w' 0%nat = Some first_person /\
    fields_of w' 0%nat =
      Some (anytype.MapObject.Unset
              (anytype.MapObject.set1 [("name", VStr "A"); ("age", VInt 30)]
                 "city" (VStr "P"))
              ["city"]).
Proof.
  apply (Set_then_Unset_new_key 0%nat "city" (VStr "P") persons first_person
           [("name", VStr "A"); ("age", VInt 30)]); reflexivity.
Defined.
